(** * Emil-frontend backend: sessions, command queues and command fan-out

    A shallow embedding of [src/backend/main.py]: the process-wide
    [sessions] dictionary, the per-client command queue, the four
    controller operations that resolve their targets the same way
    ([update_status], [apply_profile], [play_scene], [play_scenes]), the
    two client operations ([get_next_command], [report_status]) and the
    idle sweep [cleanup_sessions].

    Conventions of the embedding.
    - The global dict [sessions] is a [gmap string ClientSession]; every
      handler takes the store and returns the store it leaves behind,
      also when it raises.
    - A Python reference to a session object held in the local list
      [target_sessions] is the key of that session in the store: the
      handlers mutate the objects in place, so a mutation through the
      list is a mutation of the store entry ([alter]).
    - [time.time()] is an argument [now] of the handler that reads it.
      Clock readings are integers here; the code only subtracts and
      compares them.
    - The JSON files under [../frontend] are an argument [fs]. *)

From Stdlib Require Import ZArith.
From stdpp Require Import gmap strings list fin_maps.

Local Open Scope Z_scope.

(** ** Data model *)

(** [Command.payload] is a [Dict[str, Any]]; the handlers build exactly
    two shapes of it. *)
Inductive Payload : Type :=
  | ProfilePayload (profile : option string)
  | ScenePayload (scene : string) (loop : option bool)
                 (audio_url : option string) (msg : option string).

(** [class Command(BaseModel)]. *)
Record Command : Type := mkCommand {
  payload : Payload;
  interrupt : bool
}.

(** The dict [ClientSession.state]. *)
Record State : Type := mkState {
  current_profile : option string;
  current_scene : option string;
  queue_size : Z;
  is_looping : bool;
  last_report_ts : Z;
  is_muted : bool;
  is_sync_enabled : bool
}.

(** [class ClientSession]; the deque is a list whose head is the left
    end. *)
Record ClientSession : Type := mkSession {
  queue : list Command;
  state : State;
  last_seen : Z
}.

(** [ClientSession.__init__], reading the clock as [now]. *)
Definition ClientSession_init (now : Z) : ClientSession :=
  {| queue := [];
     state := {| current_profile := None;
                 current_scene := None;
                 queue_size := 0;
                 is_looping := false;
                 last_report_ts := 0;
                 is_muted := false;
                 is_sync_enabled := true |};
     last_seen := now |}.

(** What a handler can raise: an [HTTPException] with its status code, or
    pydantic's [ValidationError] from a model constructor. *)
Inductive error : Type :=
  | HTTPException (status_code : Z)
  | ValidationError.

Inductive result (A : Type) : Type :=
  | Return (a : A)
  | Raise (e : error).
Arguments Return {A} a.
Arguments Raise {A} e.

(** ** Field updates on a session *)

Definition set_last_seen (t : Z) (sess : ClientSession) : ClientSession :=
  {| queue := queue sess; state := state sess; last_seen := t |}.

Definition set_queue (q : list Command) (sess : ClientSession) : ClientSession :=
  {| queue := q; state := state sess; last_seen := last_seen sess |}.

Definition set_state (st : State) (sess : ClientSession) : ClientSession :=
  {| queue := queue sess; state := st; last_seen := last_seen sess |}.

(** [sess.queue.append(command)] *)
Definition queue_append (c : Command) (sess : ClientSession) : ClientSession :=
  set_queue (queue sess ++ [c]) sess.

(** [sess.queue.clear()] *)
Definition queue_clear (sess : ClientSession) : ClientSession :=
  set_queue [] sess.

(** ** Python truthiness of the optional request fields *)

(** [if request.client_id:] is false for [None] and for the empty string. *)
Definition truthy_str (o : option string) : bool :=
  match o with
  | Some s => bool_decide (s ≠ EmptyString)
  | None => false
  end.

(** [if request.interrupt:] is false for [None] and for [False]. *)
Definition truthy_bool (o : option bool) : bool :=
  match o with
  | Some b => b
  | None => false
  end.

(** ** Session store *)

(** [get_or_create_session]: the session is inserted when the id is new,
    then its [last_seen] is set; the session object is returned with the
    store. *)
Definition get_or_create_session (now : Z) (client_id : string)
    (sessions : gmap string ClientSession)
  : ClientSession * gmap string ClientSession :=
  let sessions1 :=
    match sessions !! client_id with
    | None => <[client_id := ClientSession_init now]> sessions
    | Some _ => sessions
    end in
  let sessions2 := alter (set_last_seen now) client_id sessions1 in
  (default (ClientSession_init now) (sessions2 !! client_id), sessions2).

(** [cleanup_sessions]: the ids to remove are collected first, then
    deleted one by one. *)
Definition to_remove (now timeout_seconds : Z)
    (sessions : gmap string ClientSession) : list string :=
  (List.filter
     (λ p : string * ClientSession,
        bool_decide (now - last_seen p.2 > timeout_seconds))
     (map_to_list sessions)).*1.

Definition cleanup_sessions (now timeout_seconds : Z)
    (sessions : gmap string ClientSession) : gmap string ClientSession :=
  foldl (λ m cid, delete cid m) sessions
        (to_remove now timeout_seconds sessions).

(** ** Target resolution

    Every controller handler opens with the same block:
<<
    target_sessions = []
    if request.client_id:
        if request.client_id in sessions:
            target_sessions.append(sessions[request.client_id])
    else:
        target_sessions = list(sessions.values())
>>
    The list holds references into the store, here the ids. *)
Definition target_sessions (client_id : option string)
    (sessions : gmap string ClientSession) : list string :=
  if truthy_str client_id then
    match client_id with
    | Some cid => if bool_decide (is_Some (sessions !! cid)) then [cid] else []
    | None => []
    end
  else (map_to_list sessions).*1.

(** [for sess in target_sessions: <mutate sess>] *)
Definition for_each (f : ClientSession → ClientSession) (targets : list string)
    (sessions : gmap string ClientSession) : gmap string ClientSession :=
  foldl (λ m cid, alter f cid m) sessions targets.

(** ** The scene-definitions collaborator

    [play_scene] and [play_scenes] read [settings.json], take its
    [scenes_path] entry (default [scenes.json]) and read that file.  A
    file is readable with some contents, missing, or unreadable for
    another reason.  Of the scenes file only the membership test
    [name in scenes] is used, so its contents are the set of its keys. *)
Inductive read (A : Type) : Type :=
  | Contents (a : A)
  | FileNotFoundError
  | OtherError.
Arguments Contents {A} a.
Arguments FileNotFoundError {A}.
Arguments OtherError {A}.

Record Frontend : Type := mkFrontend {
  settings_json : read (option string);   (* the [scenes_path] entry, if any *)
  json_file : string → read (gset string)
}.

(** The block shared by [play_scene] and [play_scenes] that ends with the
    loaded [scenes] dict or a 500. *)
Definition load_scenes (fs : Frontend) : result (gset string) :=
  match settings_json fs with
  | Contents settings =>
      let scenes_rel := default "scenes.json"%string settings in
      match json_file fs scenes_rel with
      | Contents scenes => Return scenes
      | FileNotFoundError => Return ∅
      | OtherError => Raise (HTTPException 500)
      end
  | FileNotFoundError | OtherError => Raise (HTTPException 500)
  end.

(** [Command(payload=..., interrupt=v)]: the field is declared [bool], so
    pydantic rejects [None]. *)
Definition Command_new (p : Payload) (v : option bool) : result Command :=
  match v with
  | Some b => Return (mkCommand p b)
  | None => Raise ValidationError
  end.

(** ** Request and response models *)

Module StatusReport.
Record t : Type := mk {
  client_id : string;
  current_profile : option string;
  current_scene : option string;
  queue_size : Z;
  is_looping : bool
}.
End StatusReport.

Module StatusUpdate.
Record t : Type := mk {
  client_id : option string;
  is_muted : option bool;
  is_sync_enabled : option bool
}.
End StatusUpdate.

Module CommandInput.
Record t : Type := mk {
  profile : option string;
  client_id : option string
}.
End CommandInput.

Module PlayRequest.
Record t : Type := mk {
  scene : string;
  loop : option bool;
  audio_url : option string;
  msg : option string;
  interrupt : option bool;
  client_id : option string
}.
End PlayRequest.

Module PlayScenesRequest.
Record t : Type := mk {
  scenes : list string;
  interrupt : option bool;
  client_id : option string
}.
End PlayScenesRequest.

(** [{"status": ..., "targets": ...}] *)
Record TargetsResponse : Type := mkTargetsResponse {
  status : string;
  targets : nat
}.

(** [{"status": "ok", "queued": ..., "targets": ...}] *)
Record QueuedResponse : Type := mkQueuedResponse {
  q_status : string;
  q_queued : list string;
  q_targets : nat
}.

(** [{"status": "ok"}] *)
Record StatusOnly : Type := mkStatusOnly { s_status : string }.

(** ** Handlers *)

(** The body of the loop of [update_status] for one session. *)
Definition push_flags (update : StatusUpdate.t) (sess : ClientSession)
  : ClientSession :=
  let st := state sess in
  let st1 :=
    match StatusUpdate.is_muted update with
    | Some b =>
        {| current_profile := current_profile st;
           current_scene := current_scene st;
           queue_size := queue_size st;
           is_looping := is_looping st;
           last_report_ts := last_report_ts st;
           is_muted := b;
           is_sync_enabled := is_sync_enabled st |}
    | None => st
    end in
  let st2 :=
    match StatusUpdate.is_sync_enabled update with
    | Some b =>
        {| current_profile := current_profile st1;
           current_scene := current_scene st1;
           queue_size := queue_size st1;
           is_looping := is_looping st1;
           last_report_ts := last_report_ts st1;
           is_muted := is_muted st1;
           is_sync_enabled := b |}
    | None => st1
    end in
  set_state st2 sess.

(** [POST /api/status] *)
Definition update_status (update : StatusUpdate.t)
    (sessions : gmap string ClientSession)
  : result TargetsResponse * gmap string ClientSession :=
  let ts := target_sessions (StatusUpdate.client_id update) sessions in
  (Return {| status := "updated"; targets := length ts |},
   for_each (push_flags update) ts sessions).

(** [POST /api/applyProfile] *)
Definition apply_profile (command_input : CommandInput.t)
    (sessions : gmap string ClientSession)
  : result TargetsResponse * gmap string ClientSession :=
  let internal_command :=
    {| payload := ProfilePayload (CommandInput.profile command_input);
       interrupt := false |} in
  let ts := target_sessions (CommandInput.client_id command_input) sessions in
  (Return {| status := "queued"; targets := length ts |},
   for_each (queue_append internal_command) ts sessions).

(** [GET /api/queue] *)
Definition get_next_command (now : Z) (client_id : string)
    (sessions : gmap string ClientSession)
  : option Command * gmap string ClientSession :=
  let '(session, sessions1) := get_or_create_session now client_id sessions in
  match queue session with
  | c :: q => (Some c, alter (set_queue q) client_id sessions1)
  | [] => (None, sessions1)
  end.

(** The four assignments of [report_status]. *)
Definition overwrite_reported (report : StatusReport.t) (sess : ClientSession)
  : ClientSession :=
  let st := state sess in
  set_state
    {| current_profile := StatusReport.current_profile report;
       current_scene := StatusReport.current_scene report;
       queue_size := StatusReport.queue_size report;
       is_looping := StatusReport.is_looping report;
       last_report_ts := last_report_ts st;
       is_muted := is_muted st;
       is_sync_enabled := is_sync_enabled st |}
    sess.

(** [POST /api/report] *)
Definition report_status (now : Z) (report : StatusReport.t)
    (sessions : gmap string ClientSession)
  : result StatusOnly * gmap string ClientSession :=
  let '(_, sessions1) :=
    get_or_create_session now (StatusReport.client_id report) sessions in
  (Return {| s_status := "ok" |},
   alter (overwrite_reported report) (StatusReport.client_id report) sessions1).

(** [POST /api/playScene]: targets, interrupt, load and validate, build
    the command, enqueue; in the order of the source. *)
Definition play_scene (fs : Frontend) (request : PlayRequest.t)
    (sessions : gmap string ClientSession)
  : result TargetsResponse * gmap string ClientSession :=
  let ts := target_sessions (PlayRequest.client_id request) sessions in
  let sessions1 :=
    if truthy_bool (PlayRequest.interrupt request)
    then for_each queue_clear ts sessions
    else sessions in
  match load_scenes fs with
  | Raise e => (Raise e, sessions1)
  | Return scenes =>
      if bool_decide (PlayRequest.scene request ∉ scenes)
      then (Raise (HTTPException 404), sessions1)
      else
        match
          Command_new
            (ScenePayload (PlayRequest.scene request) (PlayRequest.loop request)
                          (PlayRequest.audio_url request) (PlayRequest.msg request))
            (PlayRequest.interrupt request)
        with
        | Raise e => (Raise e, sessions1)
        | Return command =>
            (Return {| status := "queued"; targets := length ts |},
             for_each (queue_append command) ts sessions1)
        end
  end.

(** The [for scene_name in request.scenes] loop of [play_scenes], with its
    three loop variables: the store, [queued_scenes] and [first_command]. *)
Fixpoint play_scenes_loop (request_interrupt : option bool)
    (available_scenes : gset string) (ts : list string)
    (scenes : list string) (sessions : gmap string ClientSession)
    (queued_scenes : list string) (first_command : bool)
  : gmap string ClientSession * list string :=
  match scenes with
  | [] => (sessions, queued_scenes)
  | scene_name :: rest =>
      if bool_decide (scene_name ∈ available_scenes) then
        let should_interrupt :=
          first_command && truthy_bool request_interrupt in
        let command :=
          {| payload := ScenePayload scene_name (Some false) None None;
             interrupt := should_interrupt |} in
        play_scenes_loop request_interrupt available_scenes ts rest
          (for_each (queue_append command) ts sessions)
          (queued_scenes ++ [scene_name]) false
      else
        play_scenes_loop request_interrupt available_scenes ts rest
          sessions queued_scenes first_command
  end.

(** [POST /api/playScenes] *)
Definition play_scenes (fs : Frontend) (request : PlayScenesRequest.t)
    (sessions : gmap string ClientSession)
  : result QueuedResponse * gmap string ClientSession :=
  let ts := target_sessions (PlayScenesRequest.client_id request) sessions in
  let sessions1 :=
    if truthy_bool (PlayScenesRequest.interrupt request)
    then for_each queue_clear ts sessions
    else sessions in
  match load_scenes fs with
  | Raise e => (Raise e, sessions1)
  | Return available_scenes =>
      let '(sessions2, queued_scenes) :=
        play_scenes_loop (PlayScenesRequest.interrupt request) available_scenes
          ts (PlayScenesRequest.scenes request) sessions1 [] true in
      (Return {| q_status := "ok"; q_queued := queued_scenes;
                 q_targets := length ts |},
       sessions2)
  end.

(** ** Notions the statements are written with *)

(** The store [play_scene] leaves behind when it stops before the
    enqueue: the targeted queues are already cleared when the request
    interrupts. *)
Definition after_interrupt (v : option bool) (ts : list string)
    (m : gmap string ClientSession) : gmap string ClientSession :=
  if truthy_bool v then for_each queue_clear ts m else m.

(** The command built for an accepted scene name. *)
Definition sequence_command (interrupt : bool) (scene_name : string) : Command :=
  {| payload := ScenePayload scene_name (Some false) None None;
     interrupt := interrupt |}.

(** The names of the request that the scene definitions know, in request
    order. *)
Definition accepted (available_scenes : gset string) (scenes : list string)
  : list string :=
  filter (λ n, n ∈ available_scenes) scenes.

(** The commands one run of the loop appends to every target. *)
Definition batch (first_interrupt : bool) (names : list string) : list Command :=
  match names with
  | [] => []
  | n :: rest => sequence_command first_interrupt n
                 :: (sequence_command false <$> rest)
  end.

(** ** A session's queue under enqueues and polls

    [Enqueue c] is [sess.queue.append(c)] on the session of the client,
    the one way the handlers add to a queue; [Poll now] is a
    [GET /api/queue] of that client at clock reading [now]. *)
Inductive queue_op : Type :=
  | Enqueue (c : Command)
  | Poll (now : Z).

Fixpoint run (cid : string) (ops : list queue_op)
    (sessions : gmap string ClientSession)
  : list (option Command) * gmap string ClientSession :=
  match ops with
  | [] => ([], sessions)
  | Enqueue c :: rest => run cid rest (for_each (queue_append c) [cid] sessions)
  | Poll now :: rest =>
      let '(o, sessions1) := get_next_command now cid sessions in
      let '(outs, sessions2) := run cid rest sessions1 in
      (o :: outs, sessions2)
  end.

(** The commands an operation sequence enqueues, in order. *)
Fixpoint enqueued (ops : list queue_op) : list Command :=
  match ops with
  | [] => []
  | Enqueue c :: rest => c :: enqueued rest
  | Poll _ :: rest => enqueued rest
  end.

(** The commands a list of poll answers carries, in order. *)
Definition delivered (outs : list (option Command)) : list Command :=
  omap id outs.

(** ** Sample data for the instances below *)

Definition demo_cmd (name : string) : Command :=
  {| payload := ProfilePayload (Some name); interrupt := false |}.

Definition demo_session (q : list Command) : ClientSession :=
  set_queue q (ClientSession_init 0).

Definition demo_fs (names : gset string) : Frontend :=
  {| settings_json := Contents None;
     json_file := λ path,
       if bool_decide (path = "scenes.json"%string)
       then Contents names else FileNotFoundError |}.

(** ** The status read, and the service as a whole *)

(** One entry of [clients_data] in [get_status]. *)
Record ClientStatus : Type := mkClientStatus {
  queue_length : nat;
  model_state : State;
  last_seen_seconds_ago : Z
}.

(** [{"clients": ..., "active_session_count": ...}] *)
Record StatusResponse : Type := mkStatusResponse {
  clients : gmap string ClientStatus;
  active_session_count : nat
}.

(** [GET /api/status]: one entry per session of the store, built from the
    session; the store is only read.  The clock is read once as [now]; on
    integer readings the [int(...)] around the age is the identity. *)
Definition get_status (now : Z) (sessions : gmap string ClientSession)
  : StatusResponse :=
  {| clients :=
       (λ sess, {| queue_length := length (queue sess);
                   model_state := state sess;
                   last_seen_seconds_ago := now - last_seen sess |})
       <$> sessions;
     active_session_count := size sessions |}.

(** The requests that touch the store, each with what it reads from the
    outside (clock, files), and the periodic sweep. *)
Inductive request : Type :=
  | GetQueue (now : Z) (client_id : string)
  | PostReport (now : Z) (report : StatusReport.t)
  | PostStatus (update : StatusUpdate.t)
  | PostApplyProfile (command_input : CommandInput.t)
  | PostPlayScene (fs : Frontend) (req : PlayRequest.t)
  | PostPlayScenes (fs : Frontend) (req : PlayScenesRequest.t)
  | Sweep (now timeout_seconds : Z).

(** The store a request leaves behind, whether it returns or raises. *)
Definition handle (r : request) (sessions : gmap string ClientSession)
  : gmap string ClientSession :=
  match r with
  | GetQueue now cid => (get_next_command now cid sessions).2
  | PostReport now report => (report_status now report sessions).2
  | PostStatus update => (update_status update sessions).2
  | PostApplyProfile command_input => (apply_profile command_input sessions).2
  | PostPlayScene fs req => (play_scene fs req sessions).2
  | PostPlayScenes fs req => (play_scenes fs req sessions).2
  | Sweep now timeout_seconds => cleanup_sessions now timeout_seconds sessions
  end.

(** The store after a sequence of requests, served one at a time. *)
Definition serve (rs : list request) (sessions : gmap string ClientSession)
  : gmap string ClientSession :=
  foldl (λ m r, handle r m) sessions rs.

(** The ids under which a request sequence polls or reports. *)
Fixpoint client_ids (rs : list request) : gset string :=
  match rs with
  | [] => ∅
  | GetQueue _ cid :: rest => {[ cid ]} ∪ client_ids rest
  | PostReport _ report :: rest =>
      {[ StatusReport.client_id report ]} ∪ client_ids rest
  | _ :: rest => client_ids rest
  end.

(** The commands waiting for a client; none when it has no session. *)
Definition pending (sessions : gmap string ClientSession) (cid : string)
  : list Command :=
  default [] (queue <$> sessions !! cid).

(** A queue in which no command after the first carries the interrupt
    flag. *)
Definition interrupt_only_first (q : list Command) : Prop :=
  Forall (λ c, interrupt c = false) (tail q).

(** [payload.get("profile")] on a delivered command. *)
Definition payload_profile (p : Payload) : option string :=
  match p with
  | ProfilePayload o => o
  | ScenePayload _ _ _ _ => None
  end.

(** ** The two-client check of [verify_multiclient.py]

    [test_multiclient], with the two ids and the clock readings of its
    seven polls as arguments; the result is what the script returns. *)
Definition test_multiclient (client_a client_b : string)
    (t1 t2 t3 t4 t5 t6 t7 : Z) (sessions : gmap string ClientSession) : bool :=
  (* 1. register both clients by polling *)
  let s1 := (get_next_command t1 client_a sessions).2 in
  let s2 := (get_next_command t2 client_b s1).2 in
  let status := get_status t3 s2 in
  if negb (bool_decide (is_Some (clients status !! client_a))
           && bool_decide (is_Some (clients status !! client_b)))
  then false
  else
    (* 2. target client A *)
    let s3 := (apply_profile
                 (CommandInput.mk (Some "test_a"%string) (Some client_a)) s2).2 in
    let '(q_a, s4) := get_next_command t4 client_a s3 in
    let '(q_b, s5) := get_next_command t5 client_b s4 in
    if negb (bool_decide
               (payload_profile ∘ payload <$> q_a = Some (Some "test_a"%string)))
    then false
    else if negb (bool_decide (q_b = None))
    then false
    else
      (* 3. broadcast *)
      let s6 := (apply_profile
                   (CommandInput.mk (Some "test_broadcast"%string) None) s5).2 in
      let '(q_a', s7) := get_next_command t6 client_a s6 in
      let '(q_b', s8) := get_next_command t7 client_b s7 in
      if negb (bool_decide
                 (payload_profile ∘ payload <$> q_a'
                  = Some (Some "test_broadcast"%string)))
      then false
      else if negb (bool_decide
                      (payload_profile ∘ payload <$> q_b'
                       = Some (Some "test_broadcast"%string)))
      then false
      else true.

(** ** The scenes file as the handlers read it

    A first view of the definition files, for settings and a scenes file
    that hold JSON objects: the settings with their two path entries, and
    a data file as a map from names to JSON values, under the relative
    path written in the settings.  The module [Files] below drops these
    restrictions. *)
#[local] Set Warnings "-register-all".
Inductive json : Type :=
  | JNull
  | JBool (b : bool)
  | JInt (z : Z)
  | JStr (s : string)
  | JList (l : list json)
  | JDict (fields : list (string * json)).

Record Settings : Type := mkSettings {
  scenes_path : option string;
  profiles_path : option string
}.

Record Disk : Type := mkDisk {
  settings_file : read Settings;
  data_file : string → read (gmap string json);
  writable : string → bool
}.

(** [with open(path, "w") as f: json.dump(data, f, ...)] *)
Definition write_file (path : string) (data : gmap string json) (d : Disk)
  : option Disk :=
  if writable d path
  then Some {| settings_file := settings_file d;
               data_file := λ p, if bool_decide (p = path)
                                 then Contents data else data_file d p;
               writable := writable d |}
  else None.

Definition read_map {A B : Type} (f : A → B) (r : read A) : read B :=
  match r with
  | Contents a => Contents (f a)
  | FileNotFoundError => FileNotFoundError
  | OtherError => OtherError
  end.

(** What [play_scene] and [play_scenes] see of a disk. *)
Definition frontend (d : Disk) : Frontend :=
  {| settings_json := read_map scenes_path (settings_file d);
     json_file := λ p, read_map dom (data_file d p) |}.

(** [{"status": "ok", "name": ...}] *)
Record NameResponse : Type := mkNameResponse {
  n_status : string;
  n_name : string
}.

(** [GET /api/scenes] *)
Definition list_scenes (d : Disk) : result (gmap string json) :=
  match settings_file d with
  | Contents settings =>
      let scenes_rel := default "scenes.json"%string (scenes_path settings) in
      match data_file d scenes_rel with
      | Contents scenes => Return scenes
      | FileNotFoundError => Return ∅
      | OtherError => Raise (HTTPException 500)
      end
  | FileNotFoundError | OtherError => Raise (HTTPException 500)
  end.

(** [DELETE /api/scenes]: here a missing file is an error like any other. *)
Definition delete_scene (name : string) (d : Disk)
  : result NameResponse * Disk :=
  match settings_file d with
  | Contents settings =>
      let scenes_rel := default "scenes.json"%string (scenes_path settings) in
      match data_file d scenes_rel with
      | Contents scenes =>
          if bool_decide (name ∉ dom scenes)
          then (Raise (HTTPException 404), d)
          else
            match write_file scenes_rel (delete name scenes) d with
            | Some d1 => (Return {| n_status := "ok"; n_name := name |}, d1)
            | None => (Raise (HTTPException 500), d)
            end
      | FileNotFoundError | OtherError => (Raise (HTTPException 500), d)
      end
  | FileNotFoundError | OtherError => (Raise (HTTPException 500), d)
  end.

(** A disk with readable settings that name no paths, one data file and
    every file writable. *)
Definition demo_disk (path : string) (data : gmap string json) : Disk :=
  {| settings_file := Contents {| scenes_path := None; profiles_path := None |};
     data_file := λ p, if bool_decide (p = path)
                       then Contents data else FileNotFoundError;
     writable := λ _, true |}.

(** ** The definition files, by the file a path denotes

    The six scene and profile handlers read [settings.json], take the
    relative path of their data file from it, and read, change and rewrite
    that file.  Here a file is what the joined path denotes on the disk
    ([file_of]), so two spellings of a path, or a data path that leads to
    the settings file, are one file.  A file holds any JSON value, is
    missing, or cannot be read.  A write that succeeds replaces the
    contents; a write that fails leaves whatever the failure leaves
    ([failed_write]).  Exceptions the handlers do not catch are outcomes
    of their own. *)
Module Files.

Inductive value : Type :=
  | VNull
  | VBool (b : bool)
  | VInt (z : Z)
  | VFloat (literal : string)
  | VStr (s : string)
  | VList (l : list value)
  | VDict (fields : gmap string value).

Inductive raised : Type :=
  | HTTP (status_code : Z)
  | TypeError
  | AttributeError
  | KeyError.

Inductive outcome (A : Type) : Type :=
  | Returns (a : A)
  | Raises (e : raised).
Arguments Returns {A} a.
Arguments Raises {A} e.

Record Disk : Type := mkDisk {
  file_of : string → string;
  contents : string → read value;
  write_ok : string → value → bool;
  failed_write : string → value → read value
}.

(** [with open(path, "w") as f: json.dump(data, f, ...)], with whether it
    went through. *)
Definition write_file (path : string) (data : value) (d : Disk) : bool * Disk :=
  let f := file_of d path in
  let left_behind :=
    if write_ok d f data then Contents data else failed_write d f data in
  (write_ok d f data,
   {| file_of := file_of d;
      contents := λ g, if bool_decide (g = f) then left_behind else contents d g;
      write_ok := write_ok d;
      failed_write := failed_write d |}).

(** The block every handler opens with: read [settings.json] (any failure
    is a 500), then [settings.get(key, default)] and [os.path.join], both
    outside the [try]. *)
Definition data_path (key default_rel : string) (d : Disk) : outcome string :=
  match contents d (file_of d "settings.json"%string) with
  | Contents settings =>
      match settings with
      | VDict fields =>
          match fields !! key with
          | None => Returns default_rel
          | Some (VStr rel) => Returns rel
          | Some _ => Raises TypeError
          end
      | _ => Raises AttributeError
      end
  | FileNotFoundError | OtherError => Raises (HTTP 500)
  end.

(** [p in s] on Python strings. *)
Fixpoint is_prefix (p s : string) : bool :=
  match p, s with
  | EmptyString, _ => true
  | String a p', String b s' => bool_decide (a = b) && is_prefix p' s'
  | String _ _, EmptyString => false
  end.

Fixpoint is_substring (p s : string) : bool :=
  is_prefix p s ||
  match s with
  | EmptyString => false
  | String _ s' => is_substring p s'
  end.

(** [name in data] on a loaded JSON value. *)
Definition contains (name : string) (data : value) : outcome bool :=
  match data with
  | VDict fields => Returns (bool_decide (is_Some (fields !! name)))
  | VList l =>
      Returns (existsb (λ v, match v with
                             | VStr s => bool_decide (s = name)
                             | _ => false
                             end) l)
  | VStr s => Returns (is_substring name s)
  | VNull | VBool _ | VInt _ | VFloat _ => Raises TypeError
  end.

(** [data[name] = v] *)
Definition set_item (name : string) (v : value) (data : value) : outcome value :=
  match data with
  | VDict fields => Returns (VDict (<[name := v]> fields))
  | _ => Raises TypeError
  end.

(** [del data[name]] *)
Definition del_item (name : string) (data : value) : outcome value :=
  match data with
  | VDict fields =>
      if bool_decide (is_Some (fields !! name))
      then Returns (VDict (delete name fields))
      else Raises KeyError
  | _ => Raises TypeError
  end.

Module SceneStep.
Record t : Type := mk {
  profile : string;
  duration : Z
}.
End SceneStep.

Module SceneSave.
Record t : Type := mk {
  name : string;
  steps : list SceneStep.t
}.
End SceneSave.

Module ProfileSave.
Record t : Type := mk {
  name : string;
  scopes : list string;
  parameters : gmap string value
}.
End ProfileSave.

(** [[{"profile": s.profile, "duration": s.duration} for s in scene.steps]] *)
Definition steps_value (steps : list SceneStep.t) : value :=
  VList ((λ s, VDict {[ "profile"%string := VStr (SceneStep.profile s);
                        "duration"%string := VInt (SceneStep.duration s) ]})
         <$> steps).

(** [{"scopes": profile.scopes, "parameters": profile.parameters}] *)
Definition profile_value (profile : ProfileSave.t) : value :=
  VDict {[ "scopes"%string := VList (VStr <$> ProfileSave.scopes profile);
           "parameters"%string := VDict (ProfileSave.parameters profile) ]}.

(** The read of the data file in the listing and saving handlers, where a
    missing file is an empty object. *)
Definition read_or_empty (rel : string) (d : Disk) : outcome value :=
  match contents d (file_of d rel) with
  | Contents data => Returns data
  | FileNotFoundError => Returns (VDict ∅)
  | OtherError => Raises (HTTP 500)
  end.

(** The read of the data file in the deleting handlers, where a missing
    file is an error like any other. *)
Definition read_existing (rel : string) (d : Disk) : outcome value :=
  match contents d (file_of d rel) with
  | Contents data => Returns data
  | FileNotFoundError | OtherError => Raises (HTTP 500)
  end.

(** The body shared by [save_scene] and [save_profile] after the check
    of the name. *)
Definition save_entry (key default_rel name : string) (v : value) (d : Disk)
  : outcome NameResponse * Disk :=
  match data_path key default_rel d with
  | Raises e => (Raises e, d)
  | Returns rel =>
      match read_or_empty rel d with
      | Raises e => (Raises e, d)
      | Returns data =>
          match set_item name v data with
          | Raises e => (Raises e, d)
          | Returns data1 =>
              let '(ok, d1) := write_file rel data1 d in
              if ok
              then (Returns {| n_status := "ok"; n_name := name |}, d1)
              else (Raises (HTTP 500), d1)
          end
      end
  end.

(** The body shared by [delete_scene] and [delete_profile]. *)
Definition delete_entry (key default_rel name : string) (d : Disk)
  : outcome NameResponse * Disk :=
  match data_path key default_rel d with
  | Raises e => (Raises e, d)
  | Returns rel =>
      match read_existing rel d with
      | Raises e => (Raises e, d)
      | Returns data =>
          match contains name data with
          | Raises e => (Raises e, d)
          | Returns false => (Raises (HTTP 404), d)
          | Returns true =>
              match del_item name data with
              | Raises e => (Raises e, d)
              | Returns data1 =>
                  let '(ok, d1) := write_file rel data1 d in
                  if ok
                  then (Returns {| n_status := "ok"; n_name := name |}, d1)
                  else (Raises (HTTP 500), d1)
              end
          end
      end
  end.

(** The body shared by [list_scenes] and [list_profiles]. *)
Definition list_entries (key default_rel : string) (d : Disk) : outcome value :=
  match data_path key default_rel d with
  | Raises e => Raises e
  | Returns rel => read_or_empty rel d
  end.

(** [GET /api/scenes] *)
Definition list_scenes (d : Disk) : outcome value :=
  list_entries "scenes_path" "scenes.json" d.

(** [GET /api/profiles] *)
Definition list_profiles (d : Disk) : outcome value :=
  list_entries "profiles_path" "profiles.json" d.

(** [POST /api/scenes].  [name_rejected] is the [re.search] of the name
    for a forbidden character: white space, a quote of any kind, a slash
    or backslash, an angle bracket, a bar, a colon, a star or a question
    mark. *)
Definition save_scene (name_rejected : string → bool) (scene : SceneSave.t)
    (d : Disk) : outcome NameResponse * Disk :=
  if name_rejected (SceneSave.name scene)
  then (Raises (HTTP 400), d)
  else save_entry "scenes_path" "scenes.json" (SceneSave.name scene)
         (steps_value (SceneSave.steps scene)) d.

(** [DELETE /api/scenes] *)
Definition delete_scene (name : string) (d : Disk)
  : outcome NameResponse * Disk :=
  delete_entry "scenes_path" "scenes.json" name d.

(** [POST /api/profiles], with the same test on the name. *)
Definition save_profile (name_rejected : string → bool) (profile : ProfileSave.t)
    (d : Disk) : outcome NameResponse * Disk :=
  if name_rejected (ProfileSave.name profile)
  then (Raises (HTTP 400), d)
  else save_entry "profiles_path" "profiles.json" (ProfileSave.name profile)
         (profile_value profile) d.

(** [DELETE /api/profiles] *)
Definition delete_profile (name : string) (d : Disk)
  : outcome NameResponse * Disk :=
  delete_entry "profiles_path" "profiles.json" name d.

(** What [play_scene] and [play_scenes] see of a disk whose settings and
    scenes file are as [scenes_as_objects] says. *)
Definition frontend (d : Disk) : Frontend :=
  {| settings_json :=
       match contents d (file_of d "settings.json"%string) with
       | Contents (VDict fields) =>
           match fields !! "scenes_path"%string with
           | None => Contents None
           | Some (VStr rel) => Contents (Some rel)
           | Some _ => OtherError
           end
       | Contents _ => OtherError
       | FileNotFoundError => FileNotFoundError
       | OtherError => OtherError
       end;
     json_file := λ rel,
       match contents d (file_of d rel) with
       | Contents (VDict fields) => Contents (dom fields)
       | Contents _ => OtherError
       | FileNotFoundError => FileNotFoundError
       | OtherError => OtherError
       end |}.

(** The settings, when they can be read, are an object whose scenes path
    is absent or a string, and the scenes file, when it can be read, is
    an object: the disks on which [frontend] loses nothing. *)
Definition scenes_as_objects (d : Disk) : Prop :=
  match data_path "scenes_path" "scenes.json" d with
  | Returns rel =>
      match contents d (file_of d rel) with
      | Contents (VDict _) => True
      | Contents _ => False
      | FileNotFoundError | OtherError => True
      end
  | Raises (HTTP _) => True
  | Raises _ => False
  end.

(** A disk on which every path is its own file, the settings name no
    paths, one data file exists and every write goes through. *)
Definition demo_disk (rel : string) (data : value) : Disk :=
  {| file_of := λ p, p;
     contents := λ f,
       if bool_decide (f = "settings.json"%string) then Contents (VDict ∅)
       else if bool_decide (f = rel) then Contents data
       else FileNotFoundError;
     write_ok := λ _ _, true;
     failed_write := λ _ _, OtherError |}.

(** A disk on which the settings send the scenes to [settings.json]
    itself. *)
Definition looped_disk : Disk :=
  {| file_of := λ p, p;
     contents := λ f,
       if bool_decide (f = "settings.json"%string)
       then Contents (VDict {[ "scenes_path"%string := VStr "settings.json" ]})
       else FileNotFoundError;
     write_ok := λ _ _, true;
     failed_write := λ _ _, OtherError |}.

End Files.

(** * Properties *)

(** ** Iterating over a list of session references *)

Section for_each_facts.
Context (f : ClientSession → ClientSession).
Implicit Types (ts : list string) (m : gmap string ClientSession).

Lemma for_each_nil m : for_each f [] m = m.
Proof. reflexivity. Qed.

Lemma for_each_cons cid ts m :
  for_each f (cid :: ts) m = for_each f ts (alter f cid m).
Proof. reflexivity. Qed.

Lemma for_each_lookup_notin ts m k :
  k ∉ ts → for_each f ts m !! k = m !! k.
Proof.
  revert m. induction ts as [|cid ts IH]; intros m Hk; [done|].
  apply not_elem_of_cons in Hk as [Hne Hk].
  rewrite for_each_cons, IH by done.
  by apply lookup_alter_ne.
Qed.

Lemma for_each_lookup_in ts m k :
  NoDup ts → k ∈ ts → for_each f ts m !! k = f <$> m !! k.
Proof.
  revert m. induction ts as [|cid ts IH]; intros m Hnd Hk.
  - by apply elem_of_nil in Hk.
  - apply NoDup_cons in Hnd as [Hcid Hnd].
    rewrite for_each_cons.
    apply elem_of_cons in Hk as [->|Hk].
    + rewrite for_each_lookup_notin by done. apply lookup_alter_eq.
    + rewrite IH by done.
      rewrite lookup_alter_ne; [done|]. by intros ->.
Qed.

Lemma for_each_lookup ts m k :
  NoDup ts →
  for_each f ts m !! k = if bool_decide (k ∈ ts) then f <$> m !! k else m !! k.
Proof.
  intros Hnd. case_bool_decide.
  - by apply for_each_lookup_in.
  - by apply for_each_lookup_notin.
Qed.
End for_each_facts.

(** ** Target resolution *)

Lemma keys_NoDup (m : gmap string ClientSession) : NoDup (map_to_list m).*1.
Proof. apply NoDup_fst_map_to_list. Qed.

Lemma elem_of_keys (m : gmap string ClientSession) k :
  k ∈ (map_to_list m).*1 ↔ is_Some (m !! k).
Proof.
  rewrite list_elem_of_fmap. split.
  - intros [[k' s] [-> Hin]]. apply elem_of_map_to_list in Hin. by exists s.
  - intros [s Hs]. exists (k, s). split; [done|]. by apply elem_of_map_to_list.
Qed.

Lemma length_keys (m : gmap string ClientSession) :
  length (map_to_list m).*1 = size m.
Proof. by rewrite length_fmap, length_map_to_list. Qed.

Lemma target_sessions_NoDup o (m : gmap string ClientSession) :
  NoDup (target_sessions o m).
Proof.
  unfold target_sessions. destruct (truthy_str o).
  - destruct o as [cid|]; [|constructor].
    case_bool_decide; [apply NoDup_singleton | constructor].
  - apply keys_NoDup.
Qed.

Lemma target_sessions_exist o (m : gmap string ClientSession) k :
  k ∈ target_sessions o m → is_Some (m !! k).
Proof.
  unfold target_sessions. destruct (truthy_str o).
  - destruct o as [cid|]; [|by intros ?%elem_of_nil].
    case_bool_decide; [|by intros ?%elem_of_nil].
    by intros ->%list_elem_of_singleton.
  - by intros ?%elem_of_keys.
Qed.

(** A named, non-empty id resolves to that session alone when it exists. *)
Lemma target_sessions_named cid (m : gmap string ClientSession) :
  cid ≠ EmptyString → is_Some (m !! cid) →
  target_sessions (Some cid) m = [cid].
Proof.
  intros Hne Hs. unfold target_sessions; simpl.
  by rewrite !bool_decide_eq_true_2.
Qed.

(** A named, non-empty id without a session resolves to nothing. *)
Lemma target_sessions_unknown cid (m : gmap string ClientSession) :
  cid ≠ EmptyString → m !! cid = None →
  target_sessions (Some cid) m = [].
Proof.
  intros Hne Hs. unfold target_sessions; simpl.
  rewrite bool_decide_eq_true_2 by done.
  rewrite bool_decide_eq_false_2; [done|].
  rewrite Hs. by intros [? ?].
Qed.

(** No id, or the empty id, resolves to every session of the store. *)
Lemma target_sessions_broadcast o (m : gmap string ClientSession) :
  truthy_str o = false → target_sessions o m = (map_to_list m).*1.
Proof. intros H. unfold target_sessions. by rewrite H. Qed.

(** What a loop over the resolved targets does to one store entry. *)
Lemma for_each_target_lookup f o (m m' : gmap string ClientSession) k :
  for_each f (target_sessions o m) m' !! k =
    if bool_decide (k ∈ target_sessions o m) then f <$> m' !! k else m' !! k.
Proof. apply for_each_lookup, target_sessions_NoDup. Qed.

(** ** Polling *)

Lemma get_or_create_session_existing now cid sess
    (m : gmap string ClientSession) :
  m !! cid = Some sess →
  get_or_create_session now cid m =
    (set_last_seen now sess, <[cid := set_last_seen now sess]> m).
Proof.
  intros Hs. unfold get_or_create_session. rewrite Hs.
  assert (alter (set_last_seen now) cid m = <[cid := set_last_seen now sess]> m)
    as ->.
  { apply map_eq; intros k. destruct (decide (cid = k)) as [<-|Hne].
    - by rewrite lookup_alter_eq, lookup_insert_eq, Hs.
    - by rewrite lookup_alter_ne, lookup_insert_ne. }
  by rewrite lookup_insert_eq.
Qed.

Lemma get_or_create_session_new now cid (m : gmap string ClientSession) :
  m !! cid = None →
  get_or_create_session now cid m =
    (ClientSession_init now, <[cid := ClientSession_init now]> m).
Proof.
  intros Hs. unfold get_or_create_session. rewrite Hs.
  assert (alter (set_last_seen now) cid (<[cid := ClientSession_init now]> m)
          = <[cid := ClientSession_init now]> m) as ->.
  { apply map_eq; intros k. destruct (decide (cid = k)) as [<-|Hne].
    - by rewrite lookup_alter_eq, lookup_insert_eq.
    - by rewrite lookup_alter_ne. }
  by rewrite lookup_insert_eq.
Qed.

(** A poll of an existing session hands out the head of its queue and
    leaves the tail. *)
Lemma get_next_command_existing now cid sess (m : gmap string ClientSession) :
  m !! cid = Some sess →
  get_next_command now cid m =
    (head (queue sess),
     <[cid := set_queue (tail (queue sess)) (set_last_seen now sess)]> m).
Proof.
  intros Hs. unfold get_next_command.
  rewrite (get_or_create_session_existing _ _ _ _ Hs). simpl.
  destruct sess as [q st ls]; simpl.
  destruct q as [|c q]; simpl.
  - done.
  - f_equal. apply map_eq; intros k. destruct (decide (cid = k)) as [<-|Hne].
    + by rewrite lookup_alter_eq, !lookup_insert_eq.
    + by rewrite lookup_alter_ne, !lookup_insert_ne.
Qed.

Lemma run_app cid ops1 ops2 (m : gmap string ClientSession) :
  run cid (ops1 ++ ops2) m =
    ((run cid ops1 m).1 ++ (run cid ops2 (run cid ops1 m).2).1,
     (run cid ops2 (run cid ops1 m).2).2).
Proof.
  revert m. induction ops1 as [|[c|now] ops1 IH]; intros m; cbn [run app].
  - cbn. by destruct (run cid ops2 m).
  - apply IH.
  - destruct (get_next_command now cid m) as [o m1].
    rewrite IH. by destruct (run cid ops1 m1).
Qed.

Lemma run_poll_existing cid now ops (m : gmap string ClientSession) sess :
  m !! cid = Some sess →
  run cid (Poll now :: ops) m =
    let r := run cid ops
               (<[cid := set_queue (tail (queue sess)) (set_last_seen now sess)]> m)
    in (head (queue sess) :: r.1, r.2).
Proof.
  intros Hs. cbn [run]. rewrite (get_next_command_existing _ _ _ _ Hs).
  by destruct (run cid ops _).
Qed.

(** The enqueue of the handlers is the [Enqueue] step: a targeted
    [apply_profile] on an existing session does to the store what
    [Enqueue] of its command does. *)
Lemma apply_profile_named_enqueues cid profile (m : gmap string ClientSession) :
  cid ≠ EmptyString → is_Some (m !! cid) →
  (apply_profile (CommandInput.mk profile (Some cid)) m).2
    = (run cid [Enqueue {| payload := ProfilePayload profile;
                           interrupt := false |}] m).2.
Proof.
  intros Hne Hs. unfold apply_profile. cbn [CommandInput.client_id snd].
  by rewrite (target_sessions_named _ _ Hne Hs).
Qed.

(** Commands are neither lost nor invented: what was handed out followed
    by what is still queued is what was queued followed by what came in. *)
Lemma run_conserves cid ops : ∀ (m : gmap string ClientSession) sess,
  m !! cid = Some sess →
  ∃ sess', (run cid ops m).2 !! cid = Some sess' ∧
    delivered (run cid ops m).1 ++ queue sess' = queue sess ++ enqueued ops.
Proof.
  induction ops as [|[c|now] ops IH]; intros m sess Hs.
  - exists sess. split; [done|]. cbn. by rewrite app_nil_r.
  - cbn [run enqueued].
    change (for_each (queue_append c) [cid] m)
      with (alter (queue_append c) cid m).
    destruct (IH (alter (queue_append c) cid m) (queue_append c sess))
      as (sess' & Hl & Heq).
    { by rewrite lookup_alter_eq, Hs. }
    exists sess'. split; [done|].
    rewrite Heq. cbn. by rewrite <- app_assoc.
  - rewrite (run_poll_existing _ _ _ _ _ Hs). cbn [enqueued fst snd].
    destruct (IH (<[cid := set_queue (tail (queue sess)) (set_last_seen now sess)]> m)
                 (set_queue (tail (queue sess)) (set_last_seen now sess)))
      as (sess' & Hl & Heq).
    { by rewrite lookup_insert_eq. }
    exists sess'. split; [done|].
    destruct (queue sess) as [|c q]; cbn in Heq |- *.
    + done.
    + unfold delivered in *. cbn. by rewrite Heq.
Qed.

(** As many polls as there are queued commands hand them out head first. *)
Lemma run_drains cid nows : ∀ (m : gmap string ClientSession) sess,
  m !! cid = Some sess →
  length nows = length (queue sess) →
  (run cid (Poll <$> nows) m).1 = Some <$> queue sess ∧
  ∃ sess', (run cid (Poll <$> nows) m).2 !! cid = Some sess' ∧ queue sess' = [].
Proof.
  induction nows as [|now nows IH]; intros m sess Hs Hlen.
  - destruct (queue sess) eqn:Hq; [|done]. split; [done|]. by exists sess.
  - rewrite fmap_cons, (run_poll_existing _ _ _ _ _ Hs). cbn [fst snd].
    destruct (queue sess) as [|c q] eqn:Hq; [done|].
    destruct (IH (<[cid := set_queue q (set_last_seen now sess)]> m)
                 (set_queue q (set_last_seen now sess)))
      as (Houts & sess' & Hl & Hq').
    { by rewrite lookup_insert_eq. }
    { cbn in Hlen |- *. lia. }
    cbn [tail head]. split.
    + rewrite Houts. reflexivity.
    + by exists sess'.
Qed.

(** A poll of an empty queue answers with nothing and leaves it empty. *)
Lemma run_polls_empty cid nows : ∀ (m : gmap string ClientSession) sess,
  m !! cid = Some sess → queue sess = [] →
  delivered (run cid (Poll <$> nows) m).1 = [] ∧
  ∃ sess', (run cid (Poll <$> nows) m).2 !! cid = Some sess' ∧ queue sess' = [].
Proof.
  induction nows as [|now nows IH]; intros m sess Hs Hq.
  - split; [done|]. by exists sess.
  - rewrite fmap_cons, (run_poll_existing _ _ _ _ _ Hs). cbn [fst snd].
    rewrite Hq. cbn [tail head].
    destruct (IH (<[cid := set_queue [] (set_last_seen now sess)]> m)
                 (set_queue [] (set_last_seen now sess)))
      as (Houts & sess' & Hl & Hq'); [by rewrite lookup_insert_eq|done|].
    split; [exact Houts|by exists sess'].
Qed.

(** C2. First in, first out.  Take a client with a session and any
    interleaving [ops] of enqueues on its queue and polls by it, followed
    by at least as many further polls as commands were ever queued.  Then
    the commands all these polls hand out, in the order of the polls, are
    exactly the commands that were queued at the start followed by the
    enqueued ones in the order they were enqueued, and the queue ends
    empty: nothing is reordered, merged, dropped or handed out twice. *)
Theorem get_next_command_fifo cid (m : gmap string ClientSession) sess ops nows :
  m !! cid = Some sess →
  (length (queue sess ++ enqueued ops) ≤ length nows)%nat →
  delivered (run cid (ops ++ (Poll <$> nows)) m).1 = queue sess ++ enqueued ops ∧
  ∃ sess', (run cid (ops ++ (Poll <$> nows)) m).2 !! cid = Some sess' ∧
           queue sess' = [].
Proof.
  intros Hs Hlen. rewrite run_app. cbn [fst snd].
  destruct (run_conserves cid ops m sess Hs) as (sess1 & Hl1 & Heq).
  unfold delivered in *. rewrite omap_app, <- Heq.
  assert (Hlen1 : (length (queue sess1) ≤ length nows)%nat).
  { rewrite <- Heq, length_app in Hlen. lia. }
  rewrite <- (take_drop (length (queue sess1)) nows), fmap_app, run_app.
  cbn [fst snd].
  destruct (run_drains cid (take (length (queue sess1)) nows) _ sess1 Hl1)
    as (Houts & sess2 & Hl2 & Hq2).
  { rewrite length_take. lia. }
  destruct (run_polls_empty cid (drop (length (queue sess1)) nows) _ sess2 Hl2 Hq2)
    as (Hrest & sess3 & Hl3 & Hq3).
  unfold delivered in Hrest. rewrite omap_app, Houts, Hrest, app_nil_r.
  split; [|by exists sess3].
  f_equal. clear. induction (queue sess1) as [|c q IH]; [done|].
  cbn. by rewrite IH.
Qed.

Lemma get_next_command_fifo_witness :
  let c0 := demo_cmd "zero" in
  let c1 := demo_cmd "one" in
  let c2 := demo_cmd "two" in
  let m : gmap string ClientSession := {[ "a"%string := demo_session [c0] ]} in
  let ops := [Enqueue c1; Poll 1; Enqueue c2] ++ (Poll <$> [2; 3; 4; 5]) in
  delivered (run "a" ops m).1 = [c0; c1; c2] ∧
  ∃ sess', (run "a" ops m).2 !! "a"%string = Some sess' ∧ queue sess' = [].
Proof.
  intros c0 c1 c2 m ops.
  apply (get_next_command_fifo "a" m (demo_session [c0])
           [Enqueue c1; Poll 1; Enqueue c2] [2; 3; 4; 5]).
  - reflexivity.
  - simpl. lia.
Defined.

(** ** The idle sweep *)

Lemma foldl_delete_lookup (l : list string) : ∀ (m : gmap string ClientSession) k,
  foldl (λ m cid, delete cid m) m l !! k =
    if bool_decide (k ∈ l) then None else m !! k.
Proof.
  induction l as [|cid l IH]; intros m k; cbn [foldl].
  - by rewrite bool_decide_eq_false_2 by apply not_elem_of_nil.
  - rewrite IH. destruct (decide (k ∈ l)) as [Hin|Hnin].
    + rewrite !bool_decide_eq_true_2; [done| |done]. by right.
    + rewrite (bool_decide_eq_false_2 (k ∈ l)) by done.
      destruct (decide (k = cid)) as [->|Hne].
      * rewrite bool_decide_eq_true_2 by left. apply lookup_delete_eq.
      * rewrite bool_decide_eq_false_2.
        -- by apply lookup_delete_ne.
        -- by intros [?|?]%elem_of_cons.
Qed.

Lemma elem_of_to_remove now timeout_seconds (m : gmap string ClientSession) k :
  k ∈ to_remove now timeout_seconds m ↔
  ∃ sess, m !! k = Some sess ∧ now - last_seen sess > timeout_seconds.
Proof.
  unfold to_remove. rewrite list_elem_of_fmap. split.
  - intros [[k' sess] [-> Hin]]. exists sess.
    apply list_elem_of_In, filter_In in Hin as [Hin Hp].
    apply list_elem_of_In, elem_of_map_to_list in Hin.
    split; [done|]. by apply bool_decide_eq_true in Hp.
  - intros (sess & Hs & Hstale). exists (k, sess). split; [done|].
    apply list_elem_of_In, filter_In. split.
    + by apply list_elem_of_In, elem_of_map_to_list.
    + by apply bool_decide_eq_true.
Qed.

(** C8. The sweep removes exactly the sessions with
    [now - last_seen > timeout_seconds] and leaves every other store entry
    as it was, queue and reported state included: after the sweep the
    entry under an id is gone when its session was stale, and is the same
    session otherwise. *)
Theorem cleanup_sessions_exact now timeout_seconds
    (m : gmap string ClientSession) k :
  cleanup_sessions now timeout_seconds m !! k =
    match m !! k with
    | Some sess =>
        if bool_decide (now - last_seen sess > timeout_seconds)
        then None else Some sess
    | None => None
    end.
Proof.
  unfold cleanup_sessions. rewrite foldl_delete_lookup.
  destruct (m !! k) as [sess|] eqn:Hs.
  - case_bool_decide as Hin.
    + apply elem_of_to_remove in Hin as (sess' & Hs' & Hstale).
      assert (sess' = sess) as -> by congruence.
      by rewrite bool_decide_eq_true_2.
    + rewrite bool_decide_eq_false_2; [done|].
      intros Hstale. apply Hin, elem_of_to_remove. by exists sess.
  - by case_bool_decide.
Qed.

(** ** Status reports *)

(** C7. A report always returns [{"status": "ok"}].  Afterwards the
    session of the reporting client exists; its [current_profile],
    [current_scene], [queue_size] and [is_looping] are the submitted
    values; its [is_muted], [is_sync_enabled] and queue are those of the
    session before the call, or of a freshly created session when the id
    was unseen; and no other session changes. *)
Theorem report_status_overwrites now report (m : gmap string ClientSession) :
  let cid := StatusReport.client_id report in
  let before := default (ClientSession_init now) (m !! cid) in
  (report_status now report m).1 = Return {| s_status := "ok" |} ∧
  (∃ sess', (report_status now report m).2 !! cid = Some sess' ∧
     current_profile (state sess') = StatusReport.current_profile report ∧
     current_scene (state sess') = StatusReport.current_scene report ∧
     queue_size (state sess') = StatusReport.queue_size report ∧
     is_looping (state sess') = StatusReport.is_looping report ∧
     is_muted (state sess') = is_muted (state before) ∧
     is_sync_enabled (state sess') = is_sync_enabled (state before) ∧
     queue sess' = queue before) ∧
  (∀ k, k ≠ cid → (report_status now report m).2 !! k = m !! k).
Proof.
  intros cid before. unfold report_status. fold cid.
  destruct (m !! cid) as [sess|] eqn:Hs.
  - rewrite (get_or_create_session_existing _ _ _ _ Hs). cbn [fst snd].
    split; [done|]. split.
    + eexists. split; [by rewrite lookup_alter_eq, lookup_insert_eq|].
      by subst before.
    + intros k Hne. by rewrite lookup_alter_ne, lookup_insert_ne.
  - rewrite (get_or_create_session_new _ _ _ Hs). cbn [fst snd].
    split; [done|]. split.
    + eexists. split; [by rewrite lookup_alter_eq, lookup_insert_eq|].
      by subst before.
    + intros k Hne. by rewrite lookup_alter_ne, lookup_insert_ne.
Qed.

(** ** apply-profile *)

(** C6. The command that [apply_profile] enqueues has [interrupt = false]
    whatever the input, and no queue is cleared: the queue of each
    targeted session is its old queue followed by that one command, and
    every other session is left alone. *)
Theorem apply_profile_never_interrupts command_input
    (m : gmap string ClientSession) k :
  let c := {| payload := ProfilePayload (CommandInput.profile command_input);
              interrupt := false |} in
  let ts := target_sessions (CommandInput.client_id command_input) m in
  interrupt c = false ∧
  (apply_profile command_input m).1
    = Return {| status := "queued"; targets := length ts |} ∧
  (apply_profile command_input m).2 !! k =
    if bool_decide (k ∈ ts)
    then (λ sess, set_queue (queue sess ++ [c]) sess) <$> m !! k
    else m !! k.
Proof.
  intros c ts. split; [done|]. split; [done|].
  unfold apply_profile. cbn [snd]. apply for_each_target_lookup.
Qed.

(** ** play-scene *)

Lemma play_scene_unknown fs request (m : gmap string ClientSession) scenes :
  load_scenes fs = Return scenes →
  PlayRequest.scene request ∉ scenes →
  play_scene fs request m =
    (Raise (HTTPException 404),
     after_interrupt (PlayRequest.interrupt request)
       (target_sessions (PlayRequest.client_id request) m) m).
Proof.
  intros Hload Hnot. unfold play_scene. rewrite Hload.
  by rewrite bool_decide_eq_true_2.
Qed.

Lemma play_scene_known fs request (m : gmap string ClientSession) scenes b :
  load_scenes fs = Return scenes →
  PlayRequest.scene request ∈ scenes →
  PlayRequest.interrupt request = Some b →
  let ts := target_sessions (PlayRequest.client_id request) m in
  let c := {| payload := ScenePayload (PlayRequest.scene request)
                           (PlayRequest.loop request)
                           (PlayRequest.audio_url request)
                           (PlayRequest.msg request);
              interrupt := b |} in
  play_scene fs request m =
    (Return {| status := "queued"; targets := length ts |},
     for_each (queue_append c) ts (after_interrupt (Some b) ts m)).
Proof.
  intros Hload Hin Hint ts c. unfold play_scene. rewrite Hload, Hint.
  rewrite bool_decide_eq_false_2 by (by intros ?). reflexivity.
Qed.

(** C4. A [play_scene] request with [interrupt = true] for a scene of
    the scene definitions returns [{"status": "queued", "targets": n}]
    and leaves in the queue of each targeted session exactly one command,
    the play-scene command built from the request with [interrupt = true];
    sessions that are not targeted keep their entry. *)
Theorem play_scene_interrupt_single fs request
    (m : gmap string ClientSession) scenes k :
  load_scenes fs = Return scenes →
  PlayRequest.scene request ∈ scenes →
  PlayRequest.interrupt request = Some true →
  let ts := target_sessions (PlayRequest.client_id request) m in
  let c := {| payload := ScenePayload (PlayRequest.scene request)
                           (PlayRequest.loop request)
                           (PlayRequest.audio_url request)
                           (PlayRequest.msg request);
              interrupt := true |} in
  (play_scene fs request m).1
    = Return {| status := "queued"; targets := length ts |} ∧
  (play_scene fs request m).2 !! k =
    if bool_decide (k ∈ ts) then set_queue [c] <$> m !! k else m !! k.
Proof.
  intros Hload Hin Hint ts c.
  rewrite (play_scene_known _ _ _ _ _ Hload Hin Hint). cbn [fst snd].
  split; [done|]. unfold after_interrupt; cbn [truthy_bool].
  unfold ts. rewrite !for_each_target_lookup.
  case_bool_decide; [|done].
  by destruct (m !! k).
Qed.

Lemma play_scene_interrupt_single_witness :
  let m : gmap string ClientSession :=
    {[ "a"%string := demo_session [demo_cmd "old1"; demo_cmd "old2"] ]} in
  let request := PlayRequest.mk "wave" (Some false) None None (Some true) None in
  let c := {| payload := ScenePayload "wave" (Some false) None None;
              interrupt := true |} in
  (play_scene (demo_fs {[ "wave"%string ]}) request m).1
    = Return {| status := "queued"; targets := 1 |} ∧
  (play_scene (demo_fs {[ "wave"%string ]}) request m).2 !! "a"%string
    = Some (demo_session [c]).
Proof.
  intros m request c.
  apply (play_scene_interrupt_single (demo_fs {[ "wave"%string ]}) request m
           {[ "wave"%string ]} "a"%string).
  - reflexivity.
  - vm_compute. reflexivity.
  - reflexivity.
Defined.

(** C1. The request [{scene: "missing"}] (so [interrupt] has its default,
    [true], and the request is a broadcast) against an empty
    scene-definitions store, with one session holding two queued
    commands: [play_scene] raises 404, and the store it leaves behind has
    that session's queue emptied, so it differs from the store before the
    call. *)
Theorem play_scene_missing_scene_clears :
  let m : gmap string ClientSession :=
    {[ "a"%string := demo_session [demo_cmd "old1"; demo_cmd "old2"] ]} in
  let request := PlayRequest.mk "missing" (Some false) None None (Some true) None in
  load_scenes (demo_fs ∅) = Return ∅ ∧
  (play_scene (demo_fs ∅) request m).1 = Raise (HTTPException 404) ∧
  (play_scene (demo_fs ∅) request m).2 !! "a"%string = Some (demo_session []) ∧
  (play_scene (demo_fs ∅) request m).2 ≠ m.
Proof.
  intros m request. split; [reflexivity|].
  rewrite (play_scene_unknown (demo_fs ∅) request m ∅);
    [|reflexivity|apply not_elem_of_empty].
  cbn [fst snd]. split; [reflexivity|].
  assert (Hl : after_interrupt (PlayRequest.interrupt request)
                 (target_sessions (PlayRequest.client_id request) m) m
               !! "a"%string = Some (demo_session [])).
  { unfold after_interrupt; cbn [truthy_bool PlayRequest.interrupt request].
    rewrite for_each_target_lookup. reflexivity. }
  split; [exact Hl|].
  intros Heq. rewrite Heq in Hl. discriminate Hl.
Qed.

(** ** play-scene-sequence *)

Lemma batch_false names : batch false names = sequence_command false <$> names.
Proof. by destruct names. Qed.

Lemma set_queue_append_batch c cs (o : option ClientSession) :
  (λ sess, set_queue (queue sess ++ cs) sess) <$> (queue_append c <$> o)
  = (λ sess, set_queue (queue sess ++ c :: cs) sess) <$> o.
Proof.
  destruct o as [sess|]; [|done]. cbn. unfold set_queue; cbn.
  by rewrite <- app_assoc.
Qed.

Lemma play_scenes_loop_spec v available ts scenes :
  NoDup ts →
  ∀ (m : gmap string ClientSession) queued_scenes first_command,
    let r := play_scenes_loop v available ts scenes m queued_scenes first_command in
    let cs := batch (first_command && truthy_bool v) (accepted available scenes) in
    r.2 = queued_scenes ++ accepted available scenes ∧
    ∀ k, r.1 !! k =
      if bool_decide (k ∈ ts)
      then (λ sess, set_queue (queue sess ++ cs) sess) <$> m !! k
      else m !! k.
Proof.
  intros Hnd. unfold accepted.
  induction scenes as [|n scenes IH]; intros m queued_scenes first_command.
  - cbn. split; [by rewrite app_nil_r|].
    intros k. case_bool_decide; [|done].
    destruct (m !! k) as [[q st ls]|]; [|done].
    cbn. unfold set_queue; cbn. by rewrite app_nil_r.
  - cbn [play_scenes_loop]. rewrite filter_cons.
    destruct (decide (n ∈ available)) as [Hin|Hnin].
    + rewrite bool_decide_eq_true_2 by done.
      specialize (IH (for_each (queue_append
                        {| payload := ScenePayload n (Some false) None None;
                           interrupt := first_command && truthy_bool v |})
                        ts m) (queued_scenes ++ [n]) false).
      destruct IH as [IHq IHl]. split.
      * rewrite IHq. by rewrite <- app_assoc.
      * intros k. rewrite IHl. rewrite for_each_lookup by done.
        case_bool_decide; [|done].
        cbn [andb]. rewrite batch_false.
        apply set_queue_append_batch.
    + rewrite bool_decide_eq_false_2 by done. apply IH.
Qed.

Lemma play_scenes_loaded fs request (m : gmap string ClientSession) available :
  load_scenes fs = Return available →
  let ts := target_sessions (PlayScenesRequest.client_id request) m in
  let v := PlayScenesRequest.interrupt request in
  let names := accepted available (PlayScenesRequest.scenes request) in
  (play_scenes fs request m).1
    = Return {| q_status := "ok"; q_queued := names; q_targets := length ts |} ∧
  ∀ k, (play_scenes fs request m).2 !! k =
    if bool_decide (k ∈ ts)
    then (λ sess, set_queue (queue sess ++ batch (truthy_bool v) names) sess)
           <$> after_interrupt v ts m !! k
    else m !! k.
Proof.
  intros Hload ts v names. unfold play_scenes. rewrite Hload.
  fold ts v. fold (after_interrupt v ts m).
  pose proof (play_scenes_loop_spec v available ts
                (PlayScenesRequest.scenes request)
                (target_sessions_NoDup _ _) (after_interrupt v ts m) [] true)
    as [Hq Hl].
  destruct (play_scenes_loop _ _ _ _ _ _ _) as [m2 queued_scenes].
  cbn [fst snd] in *. split; [by rewrite Hq|].
  intros k. rewrite Hl. case_bool_decide as Hk; [done|].
  unfold after_interrupt. destruct (truthy_bool v); [|done].
  by apply for_each_lookup_notin.
Qed.

(** C3. A [play_scenes] request with [interrupt = true], at least one of
    whose names is a known scene, answers with status [ok], with the
    known names of the request in request order as [queued], and with the
    number of targets.  On every targeted queue the commands it enqueues,
    which are then the whole queue, are one command per accepted name in
    that order, the first with [interrupt = true] and all later ones with
    [interrupt = false].  Other sessions keep their entry. *)
Theorem play_scenes_first_interrupts fs request
    (m : gmap string ClientSession) available k :
  load_scenes fs = Return available →
  PlayScenesRequest.interrupt request = Some true →
  (∃ n, n ∈ PlayScenesRequest.scenes request ∧ n ∈ available) →
  let ts := target_sessions (PlayScenesRequest.client_id request) m in
  let names := accepted available (PlayScenesRequest.scenes request) in
  (play_scenes fs request m).1
    = Return {| q_status := "ok"; q_queued := names; q_targets := length ts |} ∧
  (k ∈ ts →
     ∃ sess c cs,
       m !! k = Some sess ∧
       (play_scenes fs request m).2 !! k = Some (set_queue (c :: cs) sess) ∧
       interrupt c = true ∧
       Forall (λ c', interrupt c' = false) cs ∧
       c :: cs = batch true names ∧
       (λ c', payload c') <$> (c :: cs)
         = (λ n, ScenePayload n (Some false) None None) <$> names) ∧
  (k ∉ ts → (play_scenes fs request m).2 !! k = m !! k).
Proof.
  intros Hload Hint (n & Hn & Hav) ts names.
  destruct (play_scenes_loaded fs request m available Hload) as [Hres Hl].
  fold ts names in Hres, Hl. rewrite Hint in Hl. cbn [truthy_bool] in Hl.
  split; [exact Hres|]. split.
  - intros Hk. destruct (target_sessions_exist _ _ _ Hk) as [sess Hs].
    assert (Hne : n ∈ names) by (by apply list_elem_of_filter).
    destruct names as [|n0 rest] eqn:Hnames; [by apply elem_of_nil in Hne|].
    exists sess, (sequence_command true n0), (sequence_command false <$> rest).
    split; [done|]. split.
    + rewrite Hl, bool_decide_eq_true_2 by done.
      unfold after_interrupt; cbn [truthy_bool].
      unfold ts. rewrite for_each_target_lookup.
      fold ts. rewrite bool_decide_eq_true_2 by done.
      by rewrite Hs.
    + split; [done|]. split; [|split; [done|]].
      * apply Forall_fmap, Forall_forall. by intros.
      * cbn. f_equal. rewrite <- list_fmap_compose. by apply list_fmap_ext.
  - intros Hk. by rewrite Hl, bool_decide_eq_false_2.
Qed.

Lemma play_scenes_first_interrupts_witness :
  let m : gmap string ClientSession :=
    {[ "a"%string := demo_session [demo_cmd "old"] ]} in
  let request :=
    PlayScenesRequest.mk ["wave"; "nope"; "bow"; "wave"]%string (Some true) None in
  let fs := demo_fs {[ "wave"%string; "bow"%string ]} in
  (play_scenes fs request m).1
    = Return {| q_status := "ok"; q_queued := ["wave"; "bow"; "wave"]%string;
                q_targets := 1 |} ∧
  (play_scenes fs request m).2 !! "a"%string
    = Some (demo_session [sequence_command true "wave";
                          sequence_command false "bow";
                          sequence_command false "wave"]).
Proof.
  intros m request fs.
  destruct (play_scenes_first_interrupts fs request m
              {[ "wave"%string; "bow"%string ]} "a"%string)
    as (Hres & Hin & _).
  - reflexivity.
  - reflexivity.
  - exists "wave"%string. split; vm_compute.
    + left.
    + reflexivity.
  - split.
    + exact Hres.
    + destruct Hin as (sess & c & cs & Hs & Hl & _ & _ & Hb & _).
      * vm_compute. left.
      * rewrite Hl, Hb. injection Hs as <-. reflexivity.
Defined.

Lemma accepted_none (available : gset string) scenes :
  (∀ n, n ∈ scenes → n ∉ available) → accepted available scenes = [].
Proof.
  unfold accepted. induction scenes as [|n scenes IH]; intros Hnone; [done|].
  rewrite filter_cons_False by (apply Hnone; left).
  apply IH. intros n' Hn'. apply Hnone. by right.
Qed.

(** C10. A [play_scenes] request with [interrupt = true] none of whose
    names is a known scene still answers with status [ok] and an empty
    [queued] list, and every targeted session is left with an empty
    queue: what was queued is discarded and nothing replaces it.  Other
    sessions keep their entry. *)
Theorem play_scenes_none_known_clears fs request
    (m : gmap string ClientSession) available k :
  load_scenes fs = Return available →
  PlayScenesRequest.interrupt request = Some true →
  (∀ n, n ∈ PlayScenesRequest.scenes request → n ∉ available) →
  let ts := target_sessions (PlayScenesRequest.client_id request) m in
  (play_scenes fs request m).1
    = Return {| q_status := "ok"; q_queued := []; q_targets := length ts |} ∧
  (k ∈ ts →
     ∃ sess, m !! k = Some sess ∧
       (play_scenes fs request m).2 !! k = Some (set_queue [] sess)) ∧
  (k ∉ ts → (play_scenes fs request m).2 !! k = m !! k).
Proof.
  intros Hload Hint Hnone ts.
  destruct (play_scenes_loaded fs request m available Hload) as [Hres Hl].
  fold ts in Hres, Hl. rewrite Hint in Hl. cbn [truthy_bool] in Hl.
  assert (Hacc : accepted available (PlayScenesRequest.scenes request) = []).
  { by apply accepted_none. }
  rewrite Hacc in Hres, Hl. split; [exact Hres|]. split.
  - intros Hk. destruct (target_sessions_exist _ _ _ Hk) as [sess Hs].
    exists sess. split; [done|].
    rewrite Hl, bool_decide_eq_true_2 by done.
    unfold after_interrupt; cbn [truthy_bool].
    unfold ts. rewrite for_each_target_lookup.
    fold ts. rewrite bool_decide_eq_true_2 by done.
    by rewrite Hs.
  - intros Hk. by rewrite Hl, bool_decide_eq_false_2.
Qed.

Lemma play_scenes_none_known_clears_witness :
  let m : gmap string ClientSession :=
    {[ "a"%string := demo_session [demo_cmd "old1"; demo_cmd "old2"] ]} in
  let request := PlayScenesRequest.mk ["nope"; "neither"]%string (Some true) None in
  (play_scenes (demo_fs ∅) request m).1
    = Return {| q_status := "ok"; q_queued := []; q_targets := 1 |} ∧
  (play_scenes (demo_fs ∅) request m).2 !! "a"%string = Some (demo_session []).
Proof.
  intros m request.
  destruct (play_scenes_none_known_clears (demo_fs ∅) request m ∅ "a"%string)
    as (Hres & Hin & _).
  - reflexivity.
  - reflexivity.
  - intros n _. apply not_elem_of_empty.
  - split.
    + exact Hres.
    + destruct Hin as (sess & Hs & Hl).
      * vm_compute. left.
      * rewrite Hl. injection Hs as <-. reflexivity.
Defined.

(** ** Targets that resolve to nothing, and the empty id *)

Lemma after_interrupt_nil v (m : gmap string ClientSession) :
  after_interrupt v [] m = m.
Proof. unfold after_interrupt. by destruct (truthy_bool v). Qed.

Lemma play_scene_no_targets fs request (m : gmap string ClientSession) :
  target_sessions (PlayRequest.client_id request) m = [] →
  (play_scene fs request m).2 = m.
Proof.
  intros Hts. unfold play_scene. rewrite Hts.
  fold (after_interrupt (PlayRequest.interrupt request) [] m).
  rewrite after_interrupt_nil.
  destruct (load_scenes fs) as [scenes|e]; [|done].
  case_bool_decide; [done|].
  by destruct (Command_new _ _).
Qed.

Lemma play_scenes_no_targets fs request (m : gmap string ClientSession) :
  target_sessions (PlayScenesRequest.client_id request) m = [] →
  (play_scenes fs request m).2 = m.
Proof.
  intros Hts. destruct (load_scenes fs) as [available|e] eqn:Hload.
  - destruct (play_scenes_loaded fs request m available Hload) as [_ Hl].
    apply map_eq; intros k. rewrite Hl, Hts.
    by rewrite bool_decide_eq_false_2 by apply not_elem_of_nil.
  - unfold play_scenes. rewrite Hload, Hts.
    fold (after_interrupt (PlayScenesRequest.interrupt request) [] m).
    by rewrite after_interrupt_nil.
Qed.

(** C5, as stated, fails in two ways.  An id without a session can be the
    empty string, and then the operation is a broadcast: here
    [apply_profile] with [client_id = ""] reports one target and enqueues
    on the session of client [a].  And [play_scene] with an id without a
    session still raises 404 when the scene is unknown. *)
Lemma unknown_target_counterexample :
  let m : gmap string ClientSession := {[ "a"%string := demo_session [] ]} in
  (m !! ""%string = None ∧
   apply_profile (CommandInput.mk (Some "p"%string) (Some ""%string)) m
     = (Return {| status := "queued"; targets := 1 |},
        {[ "a"%string := demo_session [demo_cmd "p"] ]})) ∧
  (m !! "ghost"%string = None ∧
   (play_scene (demo_fs ∅)
      (PlayRequest.mk "missing" (Some false) None None (Some true)
                      (Some "ghost"%string)) m).1
     = Raise (HTTPException 404)).
Proof.
  intros m. split; split; reflexivity.
Qed.

(** C5, amended.  With a non-empty [client_id] for which the store has no
    session, none of the four operations changes the store, so no session
    is created for the id and no session is affected.  [update_status]
    and [apply_profile] return with [targets = 0]; so does [play_scenes]
    when the scene definitions can be read, and [play_scene] when they
    can be read, contain the scene and the request's [interrupt] is not
    null. *)
Theorem unknown_target_no_effect cid (m : gmap string ClientSession) :
  cid ≠ EmptyString →
  m !! cid = None →
  (∀ muted sync,
     update_status (StatusUpdate.mk (Some cid) muted sync) m
       = (Return {| status := "updated"; targets := 0 |}, m)) ∧
  (∀ profile,
     apply_profile (CommandInput.mk profile (Some cid)) m
       = (Return {| status := "queued"; targets := 0 |}, m)) ∧
  (∀ fs request,
     PlayRequest.client_id request = Some cid →
     (play_scene fs request m).2 = m ∧
     ∀ scenes b,
       load_scenes fs = Return scenes →
       PlayRequest.scene request ∈ scenes →
       PlayRequest.interrupt request = Some b →
       (play_scene fs request m).1
         = Return {| status := "queued"; targets := 0 |}) ∧
  (∀ fs request,
     PlayScenesRequest.client_id request = Some cid →
     (play_scenes fs request m).2 = m ∧
     ∀ available,
       load_scenes fs = Return available →
       (play_scenes fs request m).1
         = Return {| q_status := "ok";
                     q_queued := accepted available
                                   (PlayScenesRequest.scenes request);
                     q_targets := 0 |}).
Proof.
  intros Hne Hs.
  pose proof (target_sessions_unknown cid m Hne Hs) as Hts.
  split; [|split; [|split]].
  - intros muted sync. unfold update_status.
    cbn [StatusUpdate.client_id]. by rewrite Hts.
  - intros profile. unfold apply_profile.
    cbn [CommandInput.client_id]. by rewrite Hts.
  - intros fs request Hcid. rewrite <- Hcid in Hts. split.
    + by apply play_scene_no_targets.
    + intros scenes b Hload Hin Hint.
      rewrite (play_scene_known _ _ _ _ _ Hload Hin Hint). cbn [fst].
      by rewrite Hts.
  - intros fs request Hcid. rewrite <- Hcid in Hts. split.
    + by apply play_scenes_no_targets.
    + intros available Hload.
      destruct (play_scenes_loaded fs request m available Hload) as [Hres _].
      rewrite Hres. by rewrite Hts.
Qed.

Lemma unknown_target_no_effect_witness :
  let m : gmap string ClientSession := {[ "a"%string := demo_session [] ]} in
  apply_profile (CommandInput.mk (Some "p"%string) (Some "ghost"%string)) m
    = (Return {| status := "queued"; targets := 0 |}, m) ∧
  (play_scene (demo_fs {[ "wave"%string ]})
     (PlayRequest.mk "wave" (Some false) None None (Some true)
                     (Some "ghost"%string)) m).2 = m.
Proof.
  intros m.
  destruct (unknown_target_no_effect "ghost" m) as (_ & Hap & Hps & _).
  - vm_compute. discriminate.
  - reflexivity.
  - split.
    + apply Hap.
    + apply (Hps (demo_fs {[ "wave"%string ]})
               (PlayRequest.mk "wave" (Some false) None None (Some true)
                               (Some "ghost"%string))).
      reflexivity.
Defined.

(** What a loop over the targets of a broadcast does to a store entry:
    every session is reached. *)
Lemma for_each_broadcast_lookup f o (m m' : gmap string ClientSession) k :
  truthy_str o = false →
  (m !! k = None → m' !! k = None) →
  for_each f (target_sessions o m) m' !! k = f <$> m' !! k.
Proof.
  intros Hb Hnone. rewrite for_each_target_lookup.
  case_bool_decide as Hk; [done|].
  rewrite (target_sessions_broadcast _ _ Hb), elem_of_keys in Hk.
  rewrite Hnone; [done|]. by apply eq_None_not_Some.
Qed.

Lemma target_sessions_broadcast_length o (m : gmap string ClientSession) :
  truthy_str o = false → length (target_sessions o m) = size m.
Proof. intros Hb. by rewrite (target_sessions_broadcast _ _ Hb), length_keys. Qed.

(** C9. The empty string as [client_id] is a broadcast.  In every store,
    also one that holds a session under the empty id, the targets resolved
    for [client_id = ""] are those resolved for an absent [client_id],
    namely all sessions of the store, and each of the four controller
    operations does with [client_id = ""] what it does with the id
    absent.  What that is reaches every session: [update_status] and
    [apply_profile] report as [targets] the number of sessions of the
    store and push the flags to, or enqueue the command on, every session;
    [play_scene] for a known scene and [play_scenes] with readable
    definitions report that same number and clear (when interrupting) and
    enqueue on every session.  A session under the empty id exists after
    a poll with it, and is then one of the sessions reached. *)
Theorem empty_client_id_is_broadcast (m : gmap string ClientSession) :
  target_sessions (Some EmptyString) m = (map_to_list m).*1 ∧
  target_sessions None m = (map_to_list m).*1 ∧
  (∀ k, k ∈ target_sessions (Some EmptyString) m ↔ is_Some (m !! k)) ∧
  (∀ muted sync,
     let update := StatusUpdate.mk (Some EmptyString) muted sync in
     update_status update m
       = update_status (StatusUpdate.mk None muted sync) m ∧
     (update_status update m).1
       = Return {| status := "updated"; targets := size m |} ∧
     ∀ k, (update_status update m).2 !! k = push_flags update <$> m !! k) ∧
  (∀ profile,
     let command_input := CommandInput.mk profile (Some EmptyString) in
     apply_profile command_input m
       = apply_profile (CommandInput.mk profile None) m ∧
     (apply_profile command_input m).1
       = Return {| status := "queued"; targets := size m |} ∧
     ∀ k, (apply_profile command_input m).2 !! k
          = queue_append {| payload := ProfilePayload profile;
                            interrupt := false |} <$> m !! k) ∧
  (∀ fs scene loop audio_url msg interrupt,
     let req :=
       PlayRequest.mk scene loop audio_url msg interrupt (Some EmptyString) in
     play_scene fs req m
       = play_scene fs
           (PlayRequest.mk scene loop audio_url msg interrupt None) m ∧
     ∀ scenes b,
       load_scenes fs = Return scenes →
       scene ∈ scenes →
       interrupt = Some b →
       (play_scene fs req m).1
         = Return {| status := "queued"; targets := size m |} ∧
       ∀ k, (play_scene fs req m).2 !! k
            = (λ sess,
                 set_queue
                   ((if b then [] else queue sess)
                    ++ [{| payload := ScenePayload scene loop audio_url msg;
                           interrupt := b |}])
                   sess) <$> m !! k) ∧
  (∀ fs scenes interrupt,
     let req := PlayScenesRequest.mk scenes interrupt (Some EmptyString) in
     play_scenes fs req m
       = play_scenes fs (PlayScenesRequest.mk scenes interrupt None) m ∧
     ∀ available,
       load_scenes fs = Return available →
       (play_scenes fs req m).1
         = Return {| q_status := "ok";
                     q_queued := accepted available scenes;
                     q_targets := size m |} ∧
       ∀ k, (play_scenes fs req m).2 !! k
            = (λ sess,
                 set_queue
                   ((if truthy_bool interrupt then [] else queue sess)
                    ++ batch (truthy_bool interrupt)
                         (accepted available scenes))
                   sess) <$> m !! k) ∧
  (∀ now, is_Some ((get_next_command now EmptyString m).2 !! EmptyString)).
Proof.
  assert (Hts : target_sessions (Some EmptyString) m = (map_to_list m).*1)
    by reflexivity.
  assert (Hb : truthy_str (Some EmptyString) = false) by reflexivity.
  assert (Hlen : length (target_sessions (Some EmptyString) m) = size m)
    by (by apply target_sessions_broadcast_length).
  assert (Hin : ∀ k, k ∈ target_sessions (Some EmptyString) m ↔ is_Some (m !! k))
    by (intros k; rewrite Hts; apply elem_of_keys).
  split; [exact Hts|]. split; [reflexivity|]. split; [exact Hin|].
  split; [|split; [|split; [|split]]].
  - intros muted sync update. split; [reflexivity|].
    unfold update_status. cbn [fst snd StatusUpdate.client_id update].
    rewrite Hlen. split; [done|]. intros k.
    by apply for_each_broadcast_lookup.
  - intros profile command_input. split; [reflexivity|].
    unfold apply_profile.
    cbn [fst snd CommandInput.client_id CommandInput.profile command_input].
    rewrite Hlen. split; [done|]. intros k.
    by apply for_each_broadcast_lookup.
  - intros fs scene loop audio_url msg interrupt req. split; [reflexivity|].
    intros scenes b Hload Hscene ->.
    rewrite (play_scene_known fs req m scenes b Hload Hscene eq_refl).
    cbn [fst snd PlayRequest.client_id PlayRequest.scene PlayRequest.loop
         PlayRequest.audio_url PlayRequest.msg req].
    rewrite Hlen. split; [done|]. intros k.
    assert (Hnone : m !! k = None →
              after_interrupt (Some b) (target_sessions (Some EmptyString) m) m
                !! k = None).
    { intros Hk. unfold after_interrupt. destruct b; cbn [truthy_bool]; [|done].
      rewrite for_each_target_lookup, Hk. by case_bool_decide. }
    rewrite for_each_broadcast_lookup by done.
    unfold after_interrupt. destruct b; cbn [truthy_bool].
    + rewrite for_each_broadcast_lookup by done. by destruct (m !! k).
    + by destruct (m !! k).
  - intros fs scenes interrupt req. split; [reflexivity|].
    intros available Hload.
    destruct (play_scenes_loaded fs req m available Hload) as [Hres Hl].
    cbn [PlayScenesRequest.client_id PlayScenesRequest.interrupt
         PlayScenesRequest.scenes req] in Hres, Hl.
    rewrite Hlen in Hres. split; [exact Hres|]. intros k. rewrite Hl.
    destruct (m !! k) as [sess|] eqn:Hk.
    + rewrite bool_decide_eq_true_2 by (apply Hin; by rewrite Hk).
      unfold after_interrupt. destruct (truthy_bool interrupt).
      * rewrite for_each_broadcast_lookup by done. by rewrite Hk.
      * by rewrite Hk.
    + rewrite bool_decide_eq_false_2; [done|].
      rewrite Hin, Hk. by intros [? ?].
  - intros now. destruct (m !! EmptyString) as [sess|] eqn:Hs.
    + rewrite (get_next_command_existing _ _ _ _ Hs). cbn [snd].
      by rewrite lookup_insert_eq.
    + unfold get_next_command.
      rewrite (get_or_create_session_new _ _ _ Hs). cbn.
      by rewrite lookup_insert_eq.
Qed.

Lemma empty_client_id_is_broadcast_witness :
  let m : gmap string ClientSession :=
    {[ ""%string := demo_session [demo_cmd "old"];
       "a"%string := demo_session [] ]} in
  let req := PlayRequest.mk "wave" None None None (Some true) (Some ""%string) in
  let c := {| payload := ScenePayload "wave" None None None;
              interrupt := true |} in
  (play_scene (demo_fs {[ "wave"%string ]}) req m).1
    = Return {| status := "queued"; targets := 2 |} ∧
  (play_scene (demo_fs {[ "wave"%string ]}) req m).2 !! ""%string
    = Some (demo_session [c]) ∧
  (play_scene (demo_fs {[ "wave"%string ]}) req m).2 !! "a"%string
    = Some (demo_session [c]).
Proof.
  intros m req c.
  destruct (empty_client_id_is_broadcast m) as (_ & _ & _ & _ & _ & Hps & _).
  destruct (Hps (demo_fs {[ "wave"%string ]}) "wave"%string None None None
              (Some true)) as [_ Hok].
  destruct (Hok {[ "wave"%string ]} true) as [Hres Hl].
  - reflexivity.
  - vm_compute. reflexivity.
  - reflexivity.
  - split; [exact Hres|]. split; rewrite Hl; reflexivity.
Defined.

(** * Further properties of the session store and the handlers *)

(** ** Polls, seen through the pending commands *)

Lemma pending_lookup (m : gmap string ClientSession) k sess :
  m !! k = Some sess → pending m k = queue sess.
Proof. intros H. unfold pending. by rewrite H. Qed.

Lemma pending_absent (m : gmap string ClientSession) k :
  m !! k = None → pending m k = [].
Proof. intros H. unfold pending. by rewrite H. Qed.

Lemma get_next_command_new now cid (m : gmap string ClientSession) :
  m !! cid = None →
  get_next_command now cid m = (None, <[cid := ClientSession_init now]> m).
Proof.
  intros Hs. unfold get_next_command.
  by rewrite (get_or_create_session_new _ _ _ Hs).
Qed.

Lemma get_next_command_answer now cid (m : gmap string ClientSession) :
  (get_next_command now cid m).1 = head (pending m cid).
Proof.
  destruct (m !! cid) as [sess|] eqn:Hs.
  - by rewrite (get_next_command_existing _ _ _ _ Hs), (pending_lookup _ _ _ Hs).
  - by rewrite (get_next_command_new _ _ _ Hs), (pending_absent _ _ Hs).
Qed.

Lemma get_next_command_other now cid (m : gmap string ClientSession) k :
  k ≠ cid → (get_next_command now cid m).2 !! k = m !! k.
Proof.
  intros Hne. destruct (m !! cid) as [sess|] eqn:Hs.
  - rewrite (get_next_command_existing _ _ _ _ Hs). cbn [snd].
    by rewrite lookup_insert_ne.
  - rewrite (get_next_command_new _ _ _ Hs). cbn [snd].
    by rewrite lookup_insert_ne.
Qed.

Lemma get_next_command_self now cid (m : gmap string ClientSession) :
  (get_next_command now cid m).2 !! cid =
    Some (set_queue (tail (pending m cid))
            (set_last_seen now (default (ClientSession_init now) (m !! cid)))).
Proof.
  destruct (m !! cid) as [sess|] eqn:Hs.
  - rewrite (get_next_command_existing _ _ _ _ Hs), (pending_lookup _ _ _ Hs).
    cbn [snd]. by rewrite lookup_insert_eq.
  - rewrite (get_next_command_new _ _ _ Hs), (pending_absent _ _ Hs).
    cbn [snd]. by rewrite lookup_insert_eq.
Qed.

Lemma get_next_command_pending now cid (m : gmap string ClientSession) k :
  pending (get_next_command now cid m).2 k =
    if bool_decide (k = cid) then tail (pending m cid) else pending m k.
Proof.
  case_bool_decide as Hk.
  - subst k. unfold pending at 1. by rewrite get_next_command_self.
  - unfold pending. by rewrite get_next_command_other.
Qed.

(** X1. A poll never fails and touches one session only.  Its answer is
    the first pending command of the client, or nothing when none is
    pending or the client has no session yet.  Afterwards the client has
    a session whose queue is the rest of the pending commands, whose
    [last_seen] is the time of the poll and whose reported state is the
    one it had, or the default state when the session is new.  Every
    other session is as before. *)
Theorem get_next_command_poll now cid (m : gmap string ClientSession) :
  (get_next_command now cid m).1 = head (pending m cid) ∧
  (∃ sess', (get_next_command now cid m).2 !! cid = Some sess' ∧
     queue sess' = tail (pending m cid) ∧
     last_seen sess' = now ∧
     state sess' = state (default (ClientSession_init now) (m !! cid))) ∧
  (∀ k, k ≠ cid → (get_next_command now cid m).2 !! k = m !! k).
Proof.
  split; [apply get_next_command_answer|]. split.
  - eexists. split; [apply get_next_command_self|]. done.
  - intros k Hk. by apply get_next_command_other.
Qed.

(** ** Enqueues, seen through the pending commands *)

Lemma pending_for_each_append c o (m m' : gmap string ClientSession) k :
  (∀ k', k' ∈ target_sessions o m → is_Some (m' !! k')) →
  pending (for_each (queue_append c) (target_sessions o m) m') k =
    if bool_decide (k ∈ target_sessions o m)
    then pending m' k ++ [c] else pending m' k.
Proof.
  intros Hex. unfold pending. rewrite for_each_target_lookup.
  case_bool_decide as Hk; [|done].
  destruct (Hex k Hk) as [sess Hs]. by rewrite Hs.
Qed.

Lemma apply_profile_pending command_input (m : gmap string ClientSession) k :
  pending (apply_profile command_input m).2 k =
    if bool_decide (k ∈ target_sessions (CommandInput.client_id command_input) m)
    then pending m k
         ++ [{| payload := ProfilePayload (CommandInput.profile command_input);
                interrupt := false |}]
    else pending m k.
Proof.
  unfold apply_profile. cbn [snd].
  apply pending_for_each_append. apply target_sessions_exist.
Qed.

Lemma elem_of_target_sessions_named cid (m : gmap string ClientSession) k :
  cid ≠ EmptyString →
  k ∈ target_sessions (Some cid) m ↔ k = cid ∧ is_Some (m !! cid).
Proof.
  intros Hne. destruct (m !! cid) as [sess|] eqn:Hs.
  - rewrite target_sessions_named by (done || by rewrite Hs).
    rewrite list_elem_of_singleton. split.
    + intros ->. split; [done|by exists sess].
    + by intros [-> _].
  - rewrite target_sessions_unknown by done. split.
    + by intros ?%elem_of_nil.
    + intros [_ [? ?]]. done.
Qed.

Lemma elem_of_target_sessions_all (m : gmap string ClientSession) k :
  k ∈ target_sessions None m ↔ is_Some (m !! k).
Proof. apply elem_of_keys. Qed.

Lemma get_next_command_keeps now cid (m : gmap string ClientSession) k :
  is_Some (m !! k) → is_Some ((get_next_command now cid m).2 !! k).
Proof.
  intros Hk. destruct (decide (k = cid)) as [->|Hne].
  - rewrite get_next_command_self. by eexists.
  - by rewrite get_next_command_other.
Qed.

Lemma get_next_command_inv now cid (m : gmap string ClientSession) q m' :
  get_next_command now cid m = (q, m') →
  q = head (pending m cid) ∧
  (∀ k, pending m' k =
        if bool_decide (k = cid) then tail (pending m cid) else pending m k) ∧
  (∀ k, is_Some (m !! k) → is_Some (m' !! k)).
Proof.
  intros E.
  pose proof (get_next_command_answer now cid m) as Hq.
  pose proof (get_next_command_pending now cid m) as Hp.
  pose proof (get_next_command_keeps now cid m) as Hk.
  rewrite E in Hq, Hp, Hk. cbn [fst snd] in *. done.
Qed.

Lemma apply_profile_keeps command_input (m : gmap string ClientSession) k :
  is_Some (m !! k) → is_Some ((apply_profile command_input m).2 !! k).
Proof.
  intros Hk. unfold apply_profile. cbn [snd].
  rewrite for_each_target_lookup. case_bool_decide; [|done].
  by apply fmap_is_Some.
Qed.

(** ** The two-client scenario *)

(** X2. The check of [verify_multiclient.py] passes for any two distinct
    ids, the first non-empty, that have nothing pending when it starts,
    whatever else the store holds and whatever the clock reads: a profile
    targeted at A reaches A and not B, and a broadcast profile reaches
    both. *)
Theorem test_multiclient_passes client_a client_b t1 t2 t3 t4 t5 t6 t7
    (m : gmap string ClientSession) :
  client_a ≠ client_b →
  client_a ≠ EmptyString →
  pending m client_a = [] →
  pending m client_b = [] →
  test_multiclient client_a client_b t1 t2 t3 t4 t5 t6 t7 m = true.
Proof.
  intros Hab Ha Hpa Hpb. unfold test_multiclient.
  assert (Hba : client_b ≠ client_a) by (by intros ->).
  set (s1 := (get_next_command t1 client_a m).2).
  set (s2 := (get_next_command t2 client_b s1).2).
  assert (Hs2a : is_Some (s2 !! client_a)).
  { unfold s2. rewrite get_next_command_other by done.
    unfold s1. rewrite get_next_command_self. by eexists. }
  assert (Hs2b : is_Some (s2 !! client_b)).
  { unfold s2. rewrite get_next_command_self. by eexists. }
  assert (Hp2a : pending s2 client_a = []).
  { unfold s2, s1. rewrite !get_next_command_pending.
    rewrite bool_decide_eq_false_2, bool_decide_eq_true_2 by done.
    by rewrite Hpa. }
  assert (Hp2b : pending s2 client_b = []).
  { unfold s2, s1. rewrite !get_next_command_pending.
    rewrite bool_decide_eq_true_2, bool_decide_eq_false_2 by done.
    by rewrite Hpb. }
  cbn [get_status clients]. rewrite !lookup_fmap.
  rewrite !bool_decide_eq_true_2 by (by apply fmap_is_Some).
  cbn [andb negb].
  set (s3 := (apply_profile _ s2).2).
  assert (Hp3a : pending s3 client_a
                 = [{| payload := ProfilePayload (Some "test_a"%string);
                       interrupt := false |}]).
  { unfold s3. rewrite apply_profile_pending. cbn [CommandInput.client_id].
    rewrite bool_decide_eq_true_2
      by (by apply elem_of_target_sessions_named).
    by rewrite Hp2a. }
  assert (Hp3b : pending s3 client_b = []).
  { unfold s3. rewrite apply_profile_pending. cbn [CommandInput.client_id].
    rewrite bool_decide_eq_false_2; [done|].
    intros [? _]%elem_of_target_sessions_named; done. }
  destruct (get_next_command t4 client_a s3) as [q_a s4] eqn:E4.
  destruct (get_next_command_inv _ _ _ _ _ E4) as (-> & Hp4 & Hs4).
  destruct (get_next_command t5 client_b s4) as [q_b s5] eqn:E5.
  destruct (get_next_command_inv _ _ _ _ _ E5) as (-> & Hp5 & Hs5).
  rewrite Hp3a, Hp4, (bool_decide_eq_false_2 _ Hba), Hp3b.
  cbn [head fmap option_fmap option_map compose payload payload_profile].
  rewrite !bool_decide_eq_true_2 by done. cbn [negb].
  assert (Hp5a : pending s5 client_a = []).
  { rewrite Hp5, bool_decide_eq_false_2, Hp4, bool_decide_eq_true_2 by done.
    by rewrite Hp3a. }
  assert (Hp5b : pending s5 client_b = []).
  { rewrite Hp5, bool_decide_eq_true_2, Hp4, bool_decide_eq_false_2 by done.
    by rewrite Hp3b. }
  assert (Hs5' : ∀ k, is_Some (s2 !! k) → is_Some (s5 !! k)).
  { intros k Hk. by apply Hs5, Hs4, apply_profile_keeps. }
  set (s6 := (apply_profile _ s5).2).
  assert (Hp6 : ∀ k, is_Some (s2 !! k) → pending s5 k = [] →
                pending s6 k
                = [{| payload := ProfilePayload (Some "test_broadcast"%string);
                      interrupt := false |}]).
  { intros k Hk Hp. unfold s6. rewrite apply_profile_pending.
    cbn [CommandInput.client_id CommandInput.profile].
    rewrite bool_decide_eq_true_2
      by (by apply elem_of_target_sessions_all, Hs5').
    by rewrite Hp. }
  destruct (get_next_command t6 client_a s6) as [q_a' s7] eqn:E6.
  destruct (get_next_command_inv _ _ _ _ _ E6) as (-> & Hp7 & _).
  destruct (get_next_command t7 client_b s7) as [q_b' s8] eqn:E7.
  destruct (get_next_command_inv _ _ _ _ _ E7) as (-> & _ & _).
  rewrite Hp7, (bool_decide_eq_false_2 _ Hba), !Hp6 by done.
  cbn [head fmap option_fmap option_map compose payload payload_profile].
  by rewrite !bool_decide_eq_true_2.
Qed.

Lemma test_multiclient_passes_witness :
  test_multiclient "A" "B" 1 2 3 4 5 6 7
    {[ "C"%string := demo_session [demo_cmd "other"] ]} = true.
Proof.
  apply test_multiclient_passes.
  - vm_compute. discriminate.
  - vm_compute. discriminate.
  - reflexivity.
  - reflexivity.
Defined.

(** ** What a loop over sessions leaves alone *)

Lemma for_each_proj {A} (g : ClientSession → A) f ts
    (m : gmap string ClientSession) k :
  (∀ sess, g (f sess) = g sess) →
  g <$> for_each f ts m !! k = g <$> m !! k.
Proof.
  intros Hg. revert m. induction ts as [|cid ts IH]; intros m; [done|].
  rewrite for_each_cons, IH. destruct (decide (cid = k)) as [->|Hne].
  - rewrite lookup_alter_eq. destruct (m !! k); cbn; [|done]. by rewrite Hg.
  - by rewrite lookup_alter_ne.
Qed.

Lemma after_interrupt_proj {A} (g : ClientSession → A) v ts
    (m : gmap string ClientSession) k :
  (∀ q sess, g (set_queue q sess) = g sess) →
  g <$> after_interrupt v ts m !! k = g <$> m !! k.
Proof.
  intros Hg. unfold after_interrupt. destruct (truthy_bool v); [|done].
  apply for_each_proj. intros sess. apply Hg.
Qed.

Lemma play_scenes_loop_proj {A} (g : ClientSession → A) v available ts scenes k :
  (∀ q sess, g (set_queue q sess) = g sess) →
  ∀ (m : gmap string ClientSession) queued_scenes first_command,
    g <$> (play_scenes_loop v available ts scenes m queued_scenes
             first_command).1 !! k
    = g <$> m !! k.
Proof.
  intros Hg. induction scenes as [|n scenes IH]; intros m qs fc; [done|].
  cbn [play_scenes_loop]. case_bool_decide; [|apply IH].
  rewrite IH. apply for_each_proj. intros sess. apply Hg.
Qed.

Lemma play_scene_proj {A} (g : ClientSession → A) fs req
    (m : gmap string ClientSession) k :
  (∀ q sess, g (set_queue q sess) = g sess) →
  g <$> (play_scene fs req m).2 !! k = g <$> m !! k.
Proof.
  intros Hg. unfold play_scene.
  fold (after_interrupt (PlayRequest.interrupt req)
          (target_sessions (PlayRequest.client_id req) m) m).
  destruct (load_scenes fs) as [scenes|e]; cbn [snd];
    [|by apply after_interrupt_proj].
  case_bool_decide; cbn [snd]; [by apply after_interrupt_proj|].
  destruct (Command_new _ _) as [c|e]; cbn [snd];
    [|by apply after_interrupt_proj].
  rewrite for_each_proj by (intros sess; apply Hg).
  by apply after_interrupt_proj.
Qed.

Lemma play_scenes_proj {A} (g : ClientSession → A) fs req
    (m : gmap string ClientSession) k :
  (∀ q sess, g (set_queue q sess) = g sess) →
  g <$> (play_scenes fs req m).2 !! k = g <$> m !! k.
Proof.
  intros Hg. unfold play_scenes.
  fold (after_interrupt (PlayScenesRequest.interrupt req)
          (target_sessions (PlayScenesRequest.client_id req) m) m).
  destruct (load_scenes fs) as [available|e]; cbn [snd];
    [|by apply after_interrupt_proj].
  pose proof (play_scenes_loop_proj g (PlayScenesRequest.interrupt req)
                available (target_sessions (PlayScenesRequest.client_id req) m)
                (PlayScenesRequest.scenes req) k Hg
                (after_interrupt (PlayScenesRequest.interrupt req)
                   (target_sessions (PlayScenesRequest.client_id req) m) m)
                [] true) as Hl.
  destruct (play_scenes_loop _ _ _ _ _ _ _) as [m2 qs]. cbn [fst snd] in *.
  rewrite Hl. by apply after_interrupt_proj.
Qed.

(** X3. No controller operation creates or removes a session, and none
    refreshes [last_seen]: under every id, the store after [update_status],
    [apply_profile], [play_scene] or [play_scenes] holds a session exactly
    when the store before did, with the same [last_seen], whether the
    operation returns or raises.  The three command operations also leave
    the reported state as it was, and the status push leaves the queue as
    it was. *)
Theorem controllers_keep_sessions (m : gmap string ClientSession) k :
  (∀ update,
     last_seen <$> (update_status update m).2 !! k = last_seen <$> m !! k ∧
     queue <$> (update_status update m).2 !! k = queue <$> m !! k) ∧
  (∀ command_input,
     last_seen <$> (apply_profile command_input m).2 !! k = last_seen <$> m !! k ∧
     state <$> (apply_profile command_input m).2 !! k = state <$> m !! k) ∧
  (∀ fs req,
     last_seen <$> (play_scene fs req m).2 !! k = last_seen <$> m !! k ∧
     state <$> (play_scene fs req m).2 !! k = state <$> m !! k) ∧
  (∀ fs req,
     last_seen <$> (play_scenes fs req m).2 !! k = last_seen <$> m !! k ∧
     state <$> (play_scenes fs req m).2 !! k = state <$> m !! k).
Proof.
  split; [|split; [|split]].
  - intros update. unfold update_status. cbn [snd].
    split; by apply for_each_proj.
  - intros command_input. unfold apply_profile. cbn [snd].
    split; by apply for_each_proj.
  - intros fs req. split; by apply play_scene_proj.
  - intros fs req. split; by apply play_scenes_proj.
Qed.

(** X4. What a status push changes.  [update_status] reports the number
    of resolved targets.  In each targeted session [is_muted] and
    [is_sync_enabled] take the submitted value, or keep their value when
    the field is omitted; the four reported fields, [last_report_ts], the
    queue and [last_seen] are kept.  Sessions that are not targeted are
    left as they were. *)
Theorem update_status_sets_flags update (m : gmap string ClientSession) k :
  let ts := target_sessions (StatusUpdate.client_id update) m in
  (update_status update m).1
    = Return {| status := "updated"; targets := length ts |} ∧
  (k ∈ ts →
     ∃ sess sess',
       m !! k = Some sess ∧
       (update_status update m).2 !! k = Some sess' ∧
       is_muted (state sess')
         = default (is_muted (state sess)) (StatusUpdate.is_muted update) ∧
       is_sync_enabled (state sess')
         = default (is_sync_enabled (state sess))
                   (StatusUpdate.is_sync_enabled update) ∧
       current_profile (state sess') = current_profile (state sess) ∧
       current_scene (state sess') = current_scene (state sess) ∧
       queue_size (state sess') = queue_size (state sess) ∧
       is_looping (state sess') = is_looping (state sess) ∧
       last_report_ts (state sess') = last_report_ts (state sess) ∧
       queue sess' = queue sess ∧
       last_seen sess' = last_seen sess) ∧
  (k ∉ ts → (update_status update m).2 !! k = m !! k).
Proof.
  intros ts. split; [done|]. unfold update_status. cbn [snd]. fold ts.
  unfold ts at 2 4. rewrite for_each_target_lookup. fold ts. split.
  - intros Hk. destruct (target_sessions_exist _ _ _ Hk) as [sess Hs].
    exists sess, (push_flags update sess). split; [done|].
    rewrite bool_decide_eq_true_2, Hs by done. split; [done|].
    unfold push_flags.
    by destruct (StatusUpdate.is_muted update),
                (StatusUpdate.is_sync_enabled update).
  - intros Hk. by rewrite bool_decide_eq_false_2.
Qed.

Lemma update_status_sets_flags_witness :
  let m : gmap string ClientSession :=
    {[ "a"%string := demo_session [demo_cmd "p"] ]} in
  ∃ sess',
    (update_status (StatusUpdate.mk None (Some true) None) m).2 !! "a"%string
      = Some sess' ∧
    is_muted (state sess') = true ∧
    is_sync_enabled (state sess') = true ∧
    queue sess' = [demo_cmd "p"].
Proof.
  intros m.
  destruct (update_status_sets_flags (StatusUpdate.mk None (Some true) None) m
              "a"%string) as (_ & Hin & _).
  destruct Hin
    as (sess & sess' & Hs & Hs' & Hm & Hy & _ & _ & _ & _ & _ & Hq & _).
  - vm_compute. left.
  - injection Hs as <-. exists sess'.
    split; [exact Hs'|]. split; [exact Hm|]. split; [exact Hy|exact Hq].
Defined.

(** ** The sweep and the report, seen per session *)

Lemma cleanup_sessions_lookup now timeout_seconds
    (m : gmap string ClientSession) k :
  cleanup_sessions now timeout_seconds m !! k =
    sess ← m !! k;
    if bool_decide (now - last_seen sess > timeout_seconds)
    then None else Some sess.
Proof.
  unfold cleanup_sessions. rewrite foldl_delete_lookup.
  destruct (m !! k) as [sess|] eqn:Hs; cbn.
  - case_bool_decide as Hin.
    + apply elem_of_to_remove in Hin as (sess' & Hs' & Hstale).
      assert (sess' = sess) as -> by congruence.
      by rewrite bool_decide_eq_true_2.
    + rewrite bool_decide_eq_false_2; [done|].
      intros Hstale. apply Hin, elem_of_to_remove. by exists sess.
  - by case_bool_decide.
Qed.

Lemma report_status_self now report (m : gmap string ClientSession) :
  (report_status now report m).2 !! StatusReport.client_id report =
    Some (overwrite_reported report
            (set_last_seen now
               (default (ClientSession_init now)
                        (m !! StatusReport.client_id report)))).
Proof.
  unfold report_status.
  destruct (m !! StatusReport.client_id report) as [sess|] eqn:Hs.
  - rewrite (get_or_create_session_existing _ _ _ _ Hs). cbn [snd].
    by rewrite lookup_alter_eq, lookup_insert_eq.
  - rewrite (get_or_create_session_new _ _ _ Hs). cbn [snd].
    by rewrite lookup_alter_eq, lookup_insert_eq.
Qed.

Lemma report_status_other now report (m : gmap string ClientSession) k :
  k ≠ StatusReport.client_id report →
  (report_status now report m).2 !! k = m !! k.
Proof.
  intros Hne. unfold report_status.
  destruct (m !! StatusReport.client_id report) as [sess|] eqn:Hs.
  - rewrite (get_or_create_session_existing _ _ _ _ Hs). cbn [snd].
    by rewrite lookup_alter_ne, lookup_insert_ne.
  - rewrite (get_or_create_session_new _ _ _ Hs). cbn [snd].
    by rewrite lookup_alter_ne, lookup_insert_ne.
Qed.

Lemma report_status_pending now report (m : gmap string ClientSession) k :
  pending (report_status now report m).2 k = pending m k.
Proof.
  unfold pending. destruct (decide (k = StatusReport.client_id report)) as [->|Hne].
  - rewrite report_status_self.
    by destruct (m !! StatusReport.client_id report).
  - by rewrite report_status_other.
Qed.

(** ** Pending commands after the command operations *)

Lemma pending_proj (m m' : gmap string ClientSession) k :
  queue <$> m' !! k = queue <$> m !! k → pending m' k = pending m k.
Proof. intros H. unfold pending. by rewrite H. Qed.

Lemma pending_after_interrupt v o (m : gmap string ClientSession) k :
  pending (after_interrupt v (target_sessions o m) m) k =
    if truthy_bool v && bool_decide (k ∈ target_sessions o m)
    then [] else pending m k.
Proof.
  unfold after_interrupt. destruct (truthy_bool v); [|done]. cbn [andb].
  unfold pending. rewrite for_each_target_lookup.
  case_bool_decide as Hk; [|done].
  by destruct (target_sessions_exist _ _ _ Hk) as [sess ->].
Qed.

Lemma after_interrupt_keeps v o (m : gmap string ClientSession) k :
  is_Some (m !! k) →
  is_Some (after_interrupt v (target_sessions o m) m !! k).
Proof.
  intros Hk. apply (fmap_is_Some (λ _, ())).
  rewrite (after_interrupt_proj (λ _, ())) by done. by apply fmap_is_Some.
Qed.

(** The queue a [play_scene] call leaves for a client: the queue it found,
    emptied first when the request interrupts and the client is targeted,
    and followed by the new command when the call gets as far as the
    enqueue. *)
Lemma play_scene_pending fs req (m : gmap string ClientSession) k :
  let ts := target_sessions (PlayRequest.client_id req) m in
  let kept := if truthy_bool (PlayRequest.interrupt req) && bool_decide (k ∈ ts)
              then [] else pending m k in
  pending (play_scene fs req m).2 k =
    match load_scenes fs, PlayRequest.interrupt req with
    | Return scenes, Some b =>
        if bool_decide (PlayRequest.scene req ∈ scenes) && bool_decide (k ∈ ts)
        then kept ++ [{| payload := ScenePayload (PlayRequest.scene req)
                                      (PlayRequest.loop req)
                                      (PlayRequest.audio_url req)
                                      (PlayRequest.msg req);
                         interrupt := b |}]
        else kept
    | _, _ => kept
    end.
Proof.
  intros ts kept. unfold play_scene. fold ts.
  fold (after_interrupt (PlayRequest.interrupt req) ts m).
  pose proof (pending_after_interrupt (PlayRequest.interrupt req)
                (PlayRequest.client_id req) m k) as Hkept.
  fold ts kept in Hkept.
  destruct (load_scenes fs) as [scenes|e]; cbn [snd]; [|by destruct (PlayRequest.interrupt req)].
  destruct (decide (PlayRequest.scene req ∈ scenes)) as [Hin|Hnin].
  - rewrite (bool_decide_eq_false_2 (_ ∉ _)) by (by intros ?).
    rewrite (bool_decide_eq_true_2 (_ ∈ scenes)) by done. cbn [andb].
    destruct (PlayRequest.interrupt req) as [b|] eqn:Hint; cbn [Command_new snd];
      [|done].
    unfold ts at 1. rewrite pending_for_each_append.
    + fold ts. by rewrite Hkept.
    + intros k' Hk'. apply after_interrupt_keeps.
      by apply (target_sessions_exist _ _ _ Hk').
  - rewrite (bool_decide_eq_true_2 (_ ∉ _)) by done.
    rewrite (bool_decide_eq_false_2 (_ ∈ scenes)) by done. cbn [andb snd].
    by destruct (PlayRequest.interrupt req).
Qed.

(** The queue a [play_scenes] call leaves for a client. *)
Lemma play_scenes_pending fs req (m : gmap string ClientSession) k :
  let ts := target_sessions (PlayScenesRequest.client_id req) m in
  let v := PlayScenesRequest.interrupt req in
  let kept := if truthy_bool v && bool_decide (k ∈ ts)
              then [] else pending m k in
  pending (play_scenes fs req m).2 k =
    match load_scenes fs with
    | Return available =>
        if bool_decide (k ∈ ts)
        then kept ++ batch (truthy_bool v)
                       (accepted available (PlayScenesRequest.scenes req))
        else kept
    | Raise _ => kept
    end.
Proof.
  intros ts v kept.
  pose proof (pending_after_interrupt v (PlayScenesRequest.client_id req) m k)
    as Hkept.
  fold ts kept in Hkept.
  destruct (load_scenes fs) as [available|e] eqn:Hload.
  - destruct (play_scenes_loaded fs req m available Hload) as [_ Hl].
    fold ts v in Hl. unfold pending at 1. rewrite Hl.
    case_bool_decide as Hk.
    + rewrite <- Hkept. unfold pending.
      destruct (after_interrupt_keeps v (PlayScenesRequest.client_id req) m k
                  (target_sessions_exist _ _ _ Hk)) as [sess Hs].
      fold ts in Hs. by rewrite Hs.
    + subst kept. by rewrite andb_false_r.
  - unfold play_scenes. rewrite Hload. cbn [snd]. exact Hkept.
Qed.

(** ** Invariants of the service *)

Lemma interrupt_only_first_tail q :
  interrupt_only_first q → interrupt_only_first (tail q).
Proof.
  unfold interrupt_only_first. destruct q as [|c q]; [done|]. cbn.
  destruct q as [|c' q]; [done|]. cbn. by intros [_ ?]%Forall_cons.
Qed.

Lemma interrupt_only_first_app q cs :
  interrupt_only_first q → Forall (λ c, interrupt c = false) cs →
  interrupt_only_first (q ++ cs).
Proof.
  unfold interrupt_only_first. destruct q as [|c q]; cbn.
  - intros _ Hcs. destruct cs as [|c cs]; [done|]. cbn.
    by apply Forall_cons in Hcs as [_ ?].
  - intros Hq Hcs. by apply Forall_app.
Qed.

Lemma batch_false_Forall names :
  Forall (λ c, interrupt c = false) (batch false names).
Proof. rewrite batch_false. apply Forall_fmap, Forall_forall. by intros. Qed.

Lemma interrupt_only_first_batch b names : interrupt_only_first (batch b names).
Proof.
  unfold interrupt_only_first. destruct names as [|n names]; [done|]. cbn.
  apply Forall_fmap, Forall_forall. by intros.
Qed.

Lemma handle_interrupt_only_first r (m : gmap string ClientSession) :
  (∀ k, interrupt_only_first (pending m k)) →
  ∀ k, interrupt_only_first (pending (handle r m) k).
Proof.
  intros Hm k.
  destruct r as [now cid|now report|update|ci|fs req|fs req|now timeout_seconds];
    cbn [handle].
  - rewrite get_next_command_pending. case_bool_decide; [|done].
    by apply interrupt_only_first_tail.
  - by rewrite report_status_pending.
  - rewrite (pending_proj m); [done|].
    unfold update_status. cbn [snd]. by apply for_each_proj.
  - rewrite apply_profile_pending. case_bool_decide; [|done].
    apply interrupt_only_first_app; [done|]. by repeat constructor.
  - rewrite play_scene_pending.
    assert (Hkept : interrupt_only_first
              (if truthy_bool (PlayRequest.interrupt req)
                  && bool_decide (k ∈ target_sessions (PlayRequest.client_id req) m)
               then [] else pending m k)).
    { destruct (_ && _); [by constructor|done]. }
    destruct (load_scenes fs) as [scenes|e]; [|done].
    destruct (PlayRequest.interrupt req) as [b|]; [|done].
    destruct (bool_decide (PlayRequest.scene req ∈ scenes)); [|done].
    cbn [andb truthy_bool] in *.
    destruct (bool_decide (k ∈ _)); [|done].
    destruct b; cbn [andb] in *.
    + by constructor.
    + apply interrupt_only_first_app; [done|]. by repeat constructor.
  - rewrite play_scenes_pending.
    assert (Hkept : interrupt_only_first
              (if truthy_bool (PlayScenesRequest.interrupt req)
                  && bool_decide
                       (k ∈ target_sessions (PlayScenesRequest.client_id req) m)
               then [] else pending m k)).
    { destruct (_ && _); [by constructor|done]. }
    destruct (load_scenes fs) as [available|e]; [|done].
    destruct (bool_decide (k ∈ _)); [|done].
    destruct (truthy_bool (PlayScenesRequest.interrupt req)); cbn [andb] in *.
    + apply interrupt_only_first_batch.
    + apply interrupt_only_first_app; [done|apply batch_false_Forall].
  - unfold pending. rewrite cleanup_sessions_lookup.
    specialize (Hm k). unfold pending in Hm.
    destruct (m !! k) as [sess|]; cbn in *; [|done].
    case_bool_decide; [by constructor|done].
Qed.

(** X5. In every store the service can reach from its initial empty
    store, by any sequence of polls, reports, status pushes, profile and
    scene commands (successful or failing) and sweeps, no queue holds a
    command with [interrupt = true] anywhere but at its head: a client
    that is handed an interrupting command was handed it as the first
    command queued since its queue was last cleared. *)
Theorem interrupt_only_at_head rs k :
  interrupt_only_first (pending (serve rs ∅) k).
Proof.
  revert k.
  assert (H : ∀ (m : gmap string ClientSession),
             (∀ k, interrupt_only_first (pending m k)) →
             ∀ k, interrupt_only_first (pending (serve rs m) k)).
  { induction rs as [|r rs IH]; intros m Hm; [done|].
    apply IH. by apply handle_interrupt_only_first. }
  apply H. intros k. unfold pending. rewrite lookup_empty. by constructor.
Qed.

Lemma handle_dom r (m : gmap string ClientSession) k :
  is_Some (handle r m !! k) → is_Some (m !! k) ∨ k ∈ client_ids [r].
Proof.
  destruct r as [now cid|now report|update|ci|fs req|fs req|now timeout_seconds];
    cbn [handle client_ids].
  - destruct (decide (k = cid)) as [->|Hne]; [right; set_solver|].
    rewrite get_next_command_other by done. by left.
  - destruct (decide (k = StatusReport.client_id report)) as [->|Hne];
      [right; set_solver|].
    rewrite report_status_other by done. by left.
  - intros H%(fmap_is_Some (λ _, ())). left. apply (fmap_is_Some (λ _, ())).
    unfold update_status in H. cbn [snd] in H.
    by rewrite for_each_proj in H.
  - intros H%(fmap_is_Some (λ _, ())). left. apply (fmap_is_Some (λ _, ())).
    unfold apply_profile in H. cbn [snd] in H.
    by rewrite for_each_proj in H.
  - intros H%(fmap_is_Some (λ _, ())). left. apply (fmap_is_Some (λ _, ())).
    by rewrite play_scene_proj in H.
  - intros H%(fmap_is_Some (λ _, ())). left. apply (fmap_is_Some (λ _, ())).
    by rewrite play_scenes_proj in H.
  - rewrite cleanup_sessions_lookup. left.
    destruct (m !! k); [done|]. by destruct H.
Qed.

Lemma client_ids_cons r rs : client_ids (r :: rs) = client_ids [r] ∪ client_ids rs.
Proof.
  destruct r; cbn [client_ids];
    rewrite ?(right_id_L ∅ (∪)), ?(left_id_L ∅ (∪)); done.
Qed.

(** X6. Sessions come from clients only.  After any sequence of requests
    and sweeps, every id that has a session either had one before or is
    an id under which the sequence polls or reports; starting from the
    empty store, only polled or reporting ids have sessions, whatever the
    controllers send. *)
Theorem sessions_only_from_clients rs (m : gmap string ClientSession) :
  dom (serve rs m) ⊆ dom m ∪ client_ids rs.
Proof.
  revert m. induction rs as [|r rs IH]; intros m; [set_solver|].
  cbn [serve foldl]. fold (serve rs (handle r m)).
  intros k Hk. apply IH in Hk.
  apply elem_of_union in Hk as [Hk|Hk].
  - apply elem_of_dom, handle_dom in Hk as [Hk|Hk].
    + apply elem_of_union_l. by apply elem_of_dom.
    + apply elem_of_union_r. rewrite client_ids_cons.
      by apply elem_of_union_l.
  - apply elem_of_union_r. rewrite client_ids_cons.
    by apply elem_of_union_r.
Qed.

(** ** Scene commands: the other paths *)


(** X7. A [play_scene] request with [interrupt = false] for a known
    scene clears nothing: it returns the number of targets, and the queue
    of every targeted session is its old queue followed by the new
    command, which carries [interrupt = false]; all other queues are as
    they were. *)
Theorem play_scene_without_interrupt_appends fs req
    (m : gmap string ClientSession) scenes k :
  load_scenes fs = Return scenes →
  PlayRequest.scene req ∈ scenes →
  PlayRequest.interrupt req = Some false →
  let ts := target_sessions (PlayRequest.client_id req) m in
  (play_scene fs req m).1
    = Return {| status := "queued"; targets := length ts |} ∧
  pending (play_scene fs req m).2 k =
    if bool_decide (k ∈ ts)
    then pending m k
         ++ [{| payload := ScenePayload (PlayRequest.scene req)
                             (PlayRequest.loop req) (PlayRequest.audio_url req)
                             (PlayRequest.msg req);
                interrupt := false |}]
    else pending m k.
Proof.
  intros Hload Hin Hint ts. split.
  - by rewrite (play_scene_known _ _ _ _ _ Hload Hin Hint).
  - rewrite play_scene_pending, Hload, Hint. cbn [truthy_bool andb].
    by rewrite (bool_decide_eq_true_2 _ Hin).
Qed.

Lemma play_scene_without_interrupt_appends_witness :
  let m : gmap string ClientSession :=
    {[ "a"%string := demo_session [demo_cmd "old"] ]} in
  let req := PlayRequest.mk "wave" None None None (Some false) None in
  pending (play_scene (demo_fs {[ "wave"%string ]}) req m).2 "a"
    = [demo_cmd "old";
       {| payload := ScenePayload "wave" None None None; interrupt := false |}].
Proof.
  intros m req.
  destruct (play_scene_without_interrupt_appends
              (demo_fs {[ "wave"%string ]}) req m {[ "wave"%string ]} "a"%string)
    as [_ Hp].
  - reflexivity.
  - vm_compute. reflexivity.
  - reflexivity.
  - rewrite Hp. reflexivity.
Defined.




(** X10. A [play_scenes] request that does not interrupt clears nothing:
    with readable definitions, the queue of every targeted session is its
    old queue followed by one command per accepted name, in request
    order, each with [interrupt = false]; all other queues are as they
    were. *)
Theorem play_scenes_without_interrupt_appends fs req
    (m : gmap string ClientSession) available k :
  load_scenes fs = Return available →
  truthy_bool (PlayScenesRequest.interrupt req) = false →
  pending (play_scenes fs req m).2 k =
    if bool_decide (k ∈ target_sessions (PlayScenesRequest.client_id req) m)
    then pending m k
         ++ (sequence_command false
               <$> accepted available (PlayScenesRequest.scenes req))
    else pending m k.
Proof.
  intros Hload Hv. rewrite play_scenes_pending, Hload, Hv. cbn [andb].
  by rewrite batch_false.
Qed.

Lemma play_scenes_without_interrupt_appends_witness :
  let m : gmap string ClientSession :=
    {[ "a"%string := demo_session [demo_cmd "old"] ]} in
  let req := PlayScenesRequest.mk ["bow"; "nope"; "wave"]%string None None in
  pending (play_scenes (demo_fs {[ "wave"%string; "bow"%string ]}) req m).2 "a"
    = [demo_cmd "old"; sequence_command false "bow";
       sequence_command false "wave"].
Proof.
  intros m req.
  rewrite (play_scenes_without_interrupt_appends
             (demo_fs {[ "wave"%string; "bow"%string ]}) req m
             {[ "wave"%string; "bow"%string ]} "a"%string).
  - reflexivity.
  - reflexivity.
  - reflexivity.
Defined.

(** X11. A one-name [play_scenes] request whose [interrupt] is true or
    false does to the store what the [play_scene] request for that name
    with [loop = false], no audio URL, no message and the same
    [interrupt] and [client_id] does, in every store and whatever the
    state of the definition files, although the answers differ for an
    unknown name (a 404 there, an empty [queued] list here).  A null
    [interrupt] is not covered: for a known name [play_scene] then raises
    and enqueues nothing, while [play_scenes] enqueues. *)
Theorem play_scenes_single_as_play_scene fs n b cid
    (m : gmap string ClientSession) :
  (play_scenes fs (PlayScenesRequest.mk [n] (Some b) cid) m).2
  = (play_scene fs (PlayRequest.mk n (Some false) None None (Some b) cid) m).2.
Proof.
  unfold play_scenes, play_scene.
  cbn [PlayScenesRequest.client_id PlayScenesRequest.interrupt
       PlayScenesRequest.scenes PlayRequest.client_id PlayRequest.interrupt
       PlayRequest.scene PlayRequest.loop PlayRequest.audio_url PlayRequest.msg].
  destruct (load_scenes fs) as [scenes|e]; [|done].
  cbn [play_scenes_loop Command_new truthy_bool andb].
  destruct (decide (n ∈ scenes)) as [Hin|Hnin].
  - rewrite (bool_decide_eq_true_2 _ Hin).
    by rewrite (bool_decide_eq_false_2 (n ∉ scenes)) by (by intros ?).
  - rewrite (bool_decide_eq_false_2 _ Hnin).
    by rewrite (bool_decide_eq_true_2 (n ∉ scenes)).
Qed.

(** ** Liveness of sessions *)

(** X12. A session that is stale at the sweep is gone after it: it no
    longer appears in [GET /status], the commands it had pending are
    lost, and the next poll under its id answers with nothing and starts
    a new session with an empty queue, the default reported state and
    the time of that poll as [last_seen]. *)
Theorem sweep_then_poll_starts_afresh now timeout_seconds now' t cid sess
    (m : gmap string ClientSession) :
  m !! cid = Some sess →
  now - last_seen sess > timeout_seconds →
  let swept := cleanup_sessions now timeout_seconds m in
  clients (get_status t swept) !! cid = None ∧
  pending swept cid = [] ∧
  (get_next_command now' cid swept).1 = None ∧
  (get_next_command now' cid swept).2 !! cid = Some (ClientSession_init now').
Proof.
  intros Hs Hstale swept.
  assert (Hgone : swept !! cid = None).
  { unfold swept. rewrite cleanup_sessions_lookup, Hs. cbn.
    by rewrite bool_decide_eq_true_2. }
  split; [by cbn [get_status clients]; rewrite lookup_fmap, Hgone|].
  split; [by apply pending_absent|].
  rewrite (get_next_command_new _ _ _ Hgone). cbn [fst snd].
  split; [done|]. by rewrite lookup_insert_eq.
Qed.

Lemma sweep_then_poll_starts_afresh_witness :
  let m : gmap string ClientSession :=
    {[ "a"%string := demo_session [demo_cmd "lost"] ]} in
  pending (cleanup_sessions 301 300 m) "a" = [] ∧
  (get_next_command 400 "a" (cleanup_sessions 301 300 m)).1 = None.
Proof.
  intros m.
  destruct (sweep_then_poll_starts_afresh 301 300 400 0 "a"
              (demo_session [demo_cmd "lost"]) m) as (_ & Hp & Ha & _).
  - reflexivity.
  - vm_compute. reflexivity.
  - split; [exact Hp|exact Ha].
Defined.

(** X13. A client that polls or reports is not reaped by a sweep that
    runs within the timeout of that poll or report: the session the poll
    or report leaves behind is still in the store after the sweep,
    unchanged. *)
Theorem recently_seen_survives_sweep now now' timeout_seconds
    (m : gmap string ClientSession) :
  now' - now ≤ timeout_seconds →
  (∀ cid,
     cleanup_sessions now' timeout_seconds (get_next_command now cid m).2 !! cid
     = (get_next_command now cid m).2 !! cid ∧
     is_Some ((get_next_command now cid m).2 !! cid)) ∧
  (∀ report,
     cleanup_sessions now' timeout_seconds (report_status now report m).2
       !! StatusReport.client_id report
     = (report_status now report m).2 !! StatusReport.client_id report ∧
     is_Some ((report_status now report m).2 !! StatusReport.client_id report)).
Proof.
  intros Hfresh. split.
  - intros cid. rewrite cleanup_sessions_lookup, get_next_command_self. cbn.
    split; [|by eexists]. rewrite bool_decide_eq_false_2; [done|lia].
  - intros report. rewrite cleanup_sessions_lookup, report_status_self. cbn.
    split; [|by eexists]. rewrite bool_decide_eq_false_2; [done|lia].
Qed.

Lemma recently_seen_survives_sweep_witness :
  is_Some (cleanup_sessions 400 300 (get_next_command 100 "a" ∅).2 !! "a"%string).
Proof.
  destruct (recently_seen_survives_sweep 100 400 300 ∅) as [Hpoll _].
  - lia.
  - destruct (Hpoll "a"%string) as [-> Hsome]. exact Hsome.
Defined.

(** ** The status read *)

(** X14. [GET /status] lists exactly the sessions of the store, and
    [active_session_count] is their number.  The [queue_length] of an
    entry is the number of commands actually queued for the client, not
    the [queue_size] the client reported: right after a report, the entry
    of the reporting client shows the reported [queue_size] in its
    [model_state] next to a [queue_length] that the report did not
    change. *)
Theorem get_status_counts_server_queue t now report
    (m : gmap string ClientSession) :
  let cid := StatusReport.client_id report in
  let m' := (report_status now report m).2 in
  (∀ k, is_Some (clients (get_status t m') !! k) ↔ is_Some (m' !! k)) ∧
  active_session_count (get_status t m') = size (clients (get_status t m')) ∧
  ∃ entry,
    clients (get_status t m') !! cid = Some entry ∧
    queue_length entry = length (pending m cid) ∧
    queue_size (model_state entry) = StatusReport.queue_size report.
Proof.
  intros cid m'. cbn [get_status clients active_session_count]. split.
  - intros k. rewrite lookup_fmap. apply fmap_is_Some.
  - split; [by rewrite map_size_fmap|].
    rewrite lookup_fmap. unfold m', cid. rewrite report_status_self.
    eexists. split; [reflexivity|]. cbn.
    split; [|done]. unfold pending.
    by destruct (m !! StatusReport.client_id report).
Qed.

(** X15. A broadcast reaches every session [GET /status] lists.  An
    [apply_profile] whose [client_id] is absent or empty reports as
    [targets] the [active_session_count] of the store, and the
    [queue_length] of every listed client is one more after it. *)
Theorem apply_profile_broadcast_reaches_all t command_input
    (m : gmap string ClientSession) k :
  truthy_str (CommandInput.client_id command_input) = false →
  (apply_profile command_input m).1
    = Return {| status := "queued";
                targets := active_session_count (get_status t m) |} ∧
  queue_length <$> clients (get_status t (apply_profile command_input m).2) !! k
    = S ∘ queue_length <$> clients (get_status t m) !! k.
Proof.
  intros Hb. unfold apply_profile. cbn [fst snd get_status clients active_session_count].
  rewrite (target_sessions_broadcast _ _ Hb), length_keys.
  split; [done|]. rewrite !lookup_fmap.
  rewrite for_each_lookup by apply keys_NoDup.
  destruct (m !! k) as [sess|] eqn:Hs.
  - rewrite bool_decide_eq_true_2 by (apply elem_of_keys; by rewrite Hs).
    cbn. rewrite length_app. cbn. f_equal. lia.
  - by case_bool_decide.
Qed.

Lemma apply_profile_broadcast_reaches_all_witness :
  let m : gmap string ClientSession :=
    {[ "a"%string := demo_session [demo_cmd "old"];
       "b"%string := demo_session [] ]} in
  (apply_profile (CommandInput.mk (Some "p"%string) (Some ""%string)) m).1
    = Return {| status := "queued"; targets := 2 |}.
Proof.
  intros m.
  destruct (apply_profile_broadcast_reaches_all 0
              (CommandInput.mk (Some "p"%string) (Some ""%string)) m "a"%string)
    as [Hres _].
  - reflexivity.
  - rewrite Hres. reflexivity.
Defined.

(** ** The definition files *)

Lemma load_scenes_frontend d :
  load_scenes (frontend d) =
    match list_scenes d with
    | Return scenes => Return (dom scenes)
    | Raise e => Raise e
    end.
Proof.
  unfold load_scenes, list_scenes, frontend. cbn [settings_json json_file].
  destruct (settings_file d) as [settings| |]; cbn [read_map]; [|done..].
  destruct (data_file d _) as [scenes| |]; cbn [read_map]; [done| |done].
  by rewrite dom_empty_L.
Qed.

(** X18. With readable settings and no scenes file, the scene listing is
    empty, every [play_scene] request is answered with a 404 and
    [play_scenes] accepts no name; [delete_scene], however, answers with
    a 500 rather than a 404 and leaves the disk as it is. *)
Theorem missing_scenes_file d settings :
  settings_file d = Contents settings →
  data_file d (default "scenes.json"%string (scenes_path settings))
    = FileNotFoundError →
  list_scenes d = Return ∅ ∧
  (∀ (m : gmap string ClientSession) req,
     (play_scene (frontend d) req m).1 = Raise (HTTPException 404)) ∧
  (∀ (m : gmap string ClientSession) req,
     (play_scenes (frontend d) req m).1
       = Return {| q_status := "ok"; q_queued := [];
                   q_targets := length (target_sessions
                                          (PlayScenesRequest.client_id req) m) |}) ∧
  (∀ name, delete_scene name d = (Raise (HTTPException 500), d)).
Proof.
  intros Hset Hfile.
  assert (Hlist : list_scenes d = Return ∅).
  { unfold list_scenes. by rewrite Hset, Hfile. }
  assert (Hload : load_scenes (frontend d) = Return ∅).
  { by rewrite load_scenes_frontend, Hlist, dom_empty_L. }
  split; [exact Hlist|]. split; [|split].
  - intros m req.
    by rewrite (play_scene_unknown (frontend d) req m ∅ Hload)
      by apply not_elem_of_empty.
  - intros m req.
    destruct (play_scenes_loaded (frontend d) req m ∅ Hload) as [Hres _].
    rewrite Hres. by rewrite accepted_none by (intros; apply not_elem_of_empty).
  - intros name. unfold delete_scene. by rewrite Hset, Hfile.
Qed.

Lemma missing_scenes_file_witness :
  list_scenes (demo_disk "profiles.json" ∅) = Return ∅ ∧
  delete_scene "wave" (demo_disk "profiles.json" ∅)
    = (Raise (HTTPException 500), demo_disk "profiles.json" ∅).
Proof.
  destruct (missing_scenes_file (demo_disk "profiles.json" ∅)
              {| scenes_path := None; profiles_path := None |})
    as (Hlist & _ & _ & Hdel).
  - reflexivity.
  - reflexivity.
  - split; [exact Hlist|apply Hdel].
Defined.

(** ** The definition files, written and read back *)

Lemma write_file_file_of rel data d :
  Files.file_of (Files.write_file rel data d).2 = Files.file_of d.
Proof. reflexivity. Qed.

Lemma write_file_contents_other rel data d g :
  g ≠ Files.file_of d rel →
  Files.contents (Files.write_file rel data d).2 g = Files.contents d g.
Proof. intros Hg. cbn. by rewrite bool_decide_eq_false_2. Qed.

Lemma write_file_contents_written rel data d d1 :
  Files.write_file rel data d = (true, d1) →
  Files.contents d1 (Files.file_of d rel) = Contents data
  ∧ d1 = (Files.write_file rel data d).2.
Proof.
  intros Hw. assert (d1 = (Files.write_file rel data d).2) as ->
    by (by rewrite Hw).
  split; [|done]. apply (f_equal fst) in Hw. cbn in Hw |- *.
  by rewrite bool_decide_eq_true_2, Hw.
Qed.

Lemma data_path_write key default_rel rel data d :
  Files.file_of d rel ≠ Files.file_of d "settings.json"%string →
  Files.data_path key default_rel (Files.write_file rel data d).2
    = Files.data_path key default_rel d.
Proof.
  intros Hne. unfold Files.data_path.
  by rewrite write_file_file_of, write_file_contents_other.
Qed.


Lemma list_entries_written key default_rel rel data d d1 :
  Files.data_path key default_rel d = Files.Returns rel →
  Files.file_of d rel ≠ Files.file_of d "settings.json"%string →
  Files.write_file rel data d = (true, d1) →
  Files.data_path key default_rel d1 = Files.Returns rel ∧
  Files.list_entries key default_rel d1 = Files.Returns data.
Proof.
  intros Hpath Hset Hw.
  destruct (write_file_contents_written _ _ _ _ Hw) as [Hc Hd1].
  assert (Hpath1 : Files.data_path key default_rel d1 = Files.Returns rel).
  { rewrite Hd1, data_path_write by done. exact Hpath. }
  split; [exact Hpath1|]. unfold Files.list_entries. rewrite Hpath1.
  unfold Files.read_or_empty.
  assert (Files.file_of d1 = Files.file_of d) as -> by (by rewrite Hd1).
  by rewrite Hc.
Qed.

Lemma save_entry_returns key default_rel name v d r d1 :
  Files.save_entry key default_rel name v d = (Files.Returns r, d1) →
  ∃ rel old,
    Files.data_path key default_rel d = Files.Returns rel ∧
    Files.list_entries key default_rel d = Files.Returns (Files.VDict old) ∧
    Files.write_file rel (Files.VDict (<[name := v]> old)) d = (true, d1).
Proof.
  unfold Files.save_entry, Files.list_entries. intros H.
  destruct (Files.data_path key default_rel d) as [rel|e]; [|done].
  destruct (Files.read_or_empty rel d) as [data|e]; [|done].
  destruct data as [| | | | | |old]; try done. cbn [Files.set_item] in H.
  destruct (Files.write_file rel _ d) as [ok d'] eqn:Hw.
  destruct ok; [|done]. injection H as _ <-. by exists rel, old.
Qed.

Lemma delete_entry_returns key default_rel name d r d1 :
  Files.delete_entry key default_rel name d = (Files.Returns r, d1) →
  ∃ rel old,
    Files.data_path key default_rel d = Files.Returns rel ∧
    Files.list_entries key default_rel d = Files.Returns (Files.VDict old) ∧
    is_Some (old !! name) ∧
    Files.write_file rel (Files.VDict (delete name old)) d = (true, d1).
Proof.
  unfold Files.delete_entry, Files.list_entries. intros H.
  destruct (Files.data_path key default_rel d) as [rel|e]; [|done].
  unfold Files.read_existing, Files.read_or_empty in *.
  destruct (Files.contents d (Files.file_of d rel)) as [data| |]; [|done..].
  destruct data as [| | | | s|l|old]; try done.
  - cbn [Files.contains Files.del_item] in H.
    by destruct (Files.is_substring name s).
  - cbn [Files.contains Files.del_item] in H. by destruct (existsb _ l).
  - cbn [Files.contains Files.del_item] in H.
    case_bool_decide as Hin; [|done].
    destruct (Files.write_file rel _ d) as [ok d'] eqn:Hw.
    destruct ok; [|done]. injection H as _ <-. by exists rel, old.
Qed.

Lemma load_scenes_files_frontend d rel :
  Files.data_path "scenes_path" "scenes.json" d = Files.Returns rel →
  load_scenes (Files.frontend d) =
    match Files.contents d (Files.file_of d rel) with
    | Contents (Files.VDict fields) => Return (dom fields)
    | Contents _ | OtherError => Raise (HTTPException 500)
    | FileNotFoundError => Return ∅
    end.
Proof.
  unfold Files.data_path, load_scenes, Files.frontend.
  cbn [settings_json json_file].
  destruct (Files.contents d (Files.file_of d "settings.json"%string))
    as [settings| |]; [|done..].
  destruct settings as [| | | | | |fields]; try done.
  destruct (fields !! "scenes_path"%string) as [v|].
  - destruct v as [| | | |s| |]; try done. intros [= ->]. cbn [default id].
    by destruct (Files.contents d (Files.file_of d rel)) as [[]| |].
  - intros [= <-]. cbn [default id].
    by destruct (Files.contents d (Files.file_of d "scenes.json"%string))
      as [[]| |].
Qed.

(** The hypothesis of the theorems below that the data file is not the
    settings file is needed: on a disk whose settings send the scenes to
    [settings.json], saving a scene named [scenes_path] returns, and the
    next listing raises a [TypeError]. *)
Lemma save_scene_can_overwrite_settings :
  (Files.save_scene (λ _, false) (Files.SceneSave.mk "scenes_path" [])
     Files.looped_disk).1
    = Files.Returns {| n_status := "ok"; n_name := "scenes_path" |} ∧
  Files.list_scenes
    (Files.save_scene (λ _, false) (Files.SceneSave.mk "scenes_path" [])
       Files.looped_disk).2
    = Files.Raises Files.TypeError.
Proof. split; reflexivity. Qed.

(** X16. A saved scene can be played.  When [save_scene] returns and the
    scenes file is not the settings file, the scene listing is the
    listing from before with the steps of the scene stored under its
    name, all other scenes as they were, settings and scenes file are
    JSON objects, and from then on a [play_scene] request for that name
    with a non-null [interrupt] is queued for its targets and is not
    answered with a 404. *)
Theorem saved_scene_can_be_played name_rejected scene d r d1 rel :
  Files.save_scene name_rejected scene d = (Files.Returns r, d1) →
  Files.data_path "scenes_path" "scenes.json" d = Files.Returns rel →
  Files.file_of d rel ≠ Files.file_of d "settings.json"%string →
  (∃ old,
     Files.list_scenes d = Files.Returns (Files.VDict old) ∧
     Files.list_scenes d1
       = Files.Returns
           (Files.VDict
              (<[Files.SceneSave.name scene
                 := Files.steps_value (Files.SceneSave.steps scene)]> old))) ∧
  Files.scenes_as_objects d1 ∧
  ∀ (m : gmap string ClientSession) req b,
    PlayRequest.scene req = Files.SceneSave.name scene →
    PlayRequest.interrupt req = Some b →
    (play_scene (Files.frontend d1) req m).1
      = Return {| status := "queued";
                  targets := length (target_sessions
                                       (PlayRequest.client_id req) m) |}.
Proof.
  intros Hsave Hpath Hset. unfold Files.save_scene in Hsave.
  destruct (name_rejected _); [done|].
  destruct (save_entry_returns _ _ _ _ _ _ _ Hsave)
    as (rel' & old & Hpath' & Hold & Hw).
  assert (rel' = rel) as -> by congruence.
  destruct (list_entries_written _ _ _ _ _ _ Hpath Hset Hw) as [Hpath1 Hnew].
  destruct (write_file_contents_written _ _ _ _ Hw) as [Hc Hd1].
  assert (Hc1 : Files.contents d1 (Files.file_of d1 rel)
                = Contents (Files.VDict
                    (<[Files.SceneSave.name scene
                       := Files.steps_value (Files.SceneSave.steps scene)]> old))).
  { assert (Files.file_of d1 = Files.file_of d) as -> by (by rewrite Hd1).
    exact Hc. }
  split; [by exists old|]. split.
  - unfold Files.scenes_as_objects. by rewrite Hpath1, Hc1.
  - intros m req b Hname Hint.
    rewrite (play_scene_known (Files.frontend d1) req m
               (dom (<[Files.SceneSave.name scene
                       := Files.steps_value (Files.SceneSave.steps scene)]> old))
               b); [done| | |done].
    + by rewrite (load_scenes_files_frontend _ _ Hpath1), Hc1.
    + rewrite Hname, dom_insert_L.
      by apply elem_of_union_l, elem_of_singleton.
Qed.

Lemma saved_scene_can_be_played_witness :
  let scene := Files.SceneSave.mk "wave" [Files.SceneStep.mk "smile" 3] in
  let d := Files.demo_disk "scenes.json" (Files.VDict ∅) in
  let d1 := (Files.save_scene (λ _, false) scene d).2 in
  (play_scene (Files.frontend d1)
     (PlayRequest.mk "wave" None None None (Some true) None) ∅).1
    = Return {| status := "queued"; targets := 0 |}.
Proof.
  intros scene d d1.
  destruct (saved_scene_can_be_played (λ _, false) scene d
              {| n_status := "ok"; n_name := "wave" |} d1 "scenes.json")
    as (_ & _ & Hplay).
  - reflexivity.
  - reflexivity.
  - vm_compute. discriminate.
  - exact (Hplay ∅ (PlayRequest.mk "wave" None None None (Some true) None) true
             eq_refl eq_refl).
Defined.

(** X17. A deleted scene cannot be played.  When [delete_scene] returns
    and the scenes file is not the settings file, the scene was in the
    listing, the listing afterwards is the listing from before without
    it, settings and scenes file are JSON objects, and from then on every
    [play_scene] request for that name is answered with a 404. *)
Theorem deleted_scene_cannot_be_played name d r d1 rel :
  Files.delete_scene name d = (Files.Returns r, d1) →
  Files.data_path "scenes_path" "scenes.json" d = Files.Returns rel →
  Files.file_of d rel ≠ Files.file_of d "settings.json"%string →
  (∃ old,
     Files.list_scenes d = Files.Returns (Files.VDict old) ∧
     is_Some (old !! name) ∧
     Files.list_scenes d1 = Files.Returns (Files.VDict (delete name old))) ∧
  Files.scenes_as_objects d1 ∧
  ∀ (m : gmap string ClientSession) req,
    PlayRequest.scene req = name →
    (play_scene (Files.frontend d1) req m).1 = Raise (HTTPException 404).
Proof.
  intros Hdel Hpath Hset. unfold Files.delete_scene in Hdel.
  destruct (delete_entry_returns _ _ _ _ _ _ Hdel)
    as (rel' & old & Hpath' & Hold & Hin & Hw).
  assert (rel' = rel) as -> by congruence.
  destruct (list_entries_written _ _ _ _ _ _ Hpath Hset Hw) as [Hpath1 Hnew].
  destruct (write_file_contents_written _ _ _ _ Hw) as [Hc Hd1].
  assert (Hc1 : Files.contents d1 (Files.file_of d1 rel)
                = Contents (Files.VDict (delete name old))).
  { assert (Files.file_of d1 = Files.file_of d) as -> by (by rewrite Hd1).
    exact Hc. }
  split; [by exists old|]. split.
  - unfold Files.scenes_as_objects. by rewrite Hpath1, Hc1.
  - intros m req Hname.
    rewrite (play_scene_unknown (Files.frontend d1) req m
               (dom (delete name old))); [done| |].
    + by rewrite (load_scenes_files_frontend _ _ Hpath1), Hc1.
    + rewrite Hname, dom_delete_L.
      intros [_ Hne]%elem_of_difference. by apply Hne, elem_of_singleton.
Qed.

Lemma deleted_scene_cannot_be_played_witness :
  let d := Files.demo_disk "scenes.json"
             (Files.VDict {[ "wave"%string := Files.VList [] ]}) in
  let d1 := (Files.delete_scene "wave" d).2 in
  (play_scene (Files.frontend d1)
     (PlayRequest.mk "wave" None None None (Some true) None) ∅).1
    = Raise (HTTPException 404).
Proof.
  intros d d1.
  destruct (deleted_scene_cannot_be_played "wave" d
              {| n_status := "ok"; n_name := "wave" |} d1 "scenes.json")
    as (_ & _ & Hplay).
  - reflexivity.
  - reflexivity.
  - vm_compute. discriminate.
  - apply Hplay. reflexivity.
Defined.

(** X19. Saving a profile and deleting it again.  When [save_profile]
    returns and the profiles file is not the settings file, the profile
    listing is the listing from before with the scopes and parameters of
    the profile stored under its name, replacing what was stored under
    that name.  A [delete_profile] of the name then finds it: it returns
    when its write goes through and raises a 500 when it does not, never
    a 404; and when it returns, the listing is the listing from before
    the save without that name, which is the original listing when the
    name was new. *)
Theorem save_then_delete_profile name_rejected profile d r d1 rel :
  Files.save_profile name_rejected profile d = (Files.Returns r, d1) →
  Files.data_path "profiles_path" "profiles.json" d = Files.Returns rel →
  Files.file_of d rel ≠ Files.file_of d "settings.json"%string →
  let name := Files.ProfileSave.name profile in
  ∃ old,
    Files.list_profiles d = Files.Returns (Files.VDict old) ∧
    Files.list_profiles d1
      = Files.Returns (Files.VDict (<[name := Files.profile_value profile]> old)) ∧
    (Files.delete_profile name d1).1
      = (if Files.write_ok d (Files.file_of d rel)
              (Files.VDict (delete name old))
         then Files.Returns {| n_status := "ok"; n_name := name |}
         else Files.Raises (Files.HTTP 500)) ∧
    ∀ r2 d2,
      Files.delete_profile name d1 = (Files.Returns r2, d2) →
      Files.list_profiles d2 = Files.Returns (Files.VDict (delete name old)) ∧
      (old !! name = None →
       Files.list_profiles d2 = Files.Returns (Files.VDict old)).
Proof.
  intros Hsave Hpath Hset name. unfold Files.save_profile in Hsave.
  destruct (name_rejected _); [done|].
  destruct (save_entry_returns _ _ _ _ _ _ _ Hsave)
    as (rel' & old & Hpath' & Hold & Hw).
  assert (rel' = rel) as -> by congruence. fold name in Hw.
  destruct (list_entries_written _ _ _ _ _ _ Hpath Hset Hw) as [Hpath1 Hnew].
  destruct (write_file_contents_written _ _ _ _ Hw) as [Hc Hd1].
  assert (Hf1 : Files.file_of d1 = Files.file_of d) by (by rewrite Hd1).
  assert (Hwok1 : Files.write_ok d1 = Files.write_ok d) by (by rewrite Hd1).
  assert (Hset1 : Files.file_of d1 rel ≠ Files.file_of d1 "settings.json"%string)
    by (by rewrite Hf1).
  exists old. split; [exact Hold|]. split; [exact Hnew|].
  assert (Hdel : Files.delete_profile name d1
            = (let '(ok, d2) :=
                 Files.write_file rel (Files.VDict (delete name old)) d1 in
               if ok
               then (Files.Returns {| n_status := "ok"; n_name := name |}, d2)
               else (Files.Raises (Files.HTTP 500), d2))).
  { unfold Files.delete_profile, Files.delete_entry. rewrite Hpath1.
    unfold Files.read_existing. rewrite Hf1, Hc.
    cbn [Files.contains Files.del_item].
    rewrite !bool_decide_eq_true_2 by (by rewrite lookup_insert_eq).
    by rewrite delete_insert_eq. }
  split.
  - rewrite Hdel. cbn [Files.write_file]. rewrite Hf1, Hwok1.
    by destruct (Files.write_ok d _ _).
  - intros r2 d2 Hret. rewrite Hdel in Hret.
    destruct (Files.write_file rel _ d1) as [ok d2'] eqn:Hw2.
    destruct ok; [|done]. injection Hret as _ <-.
    destruct (list_entries_written _ _ _ _ _ _ Hpath1 Hset1 Hw2) as [_ Hlist2].
    split; [exact Hlist2|].
    intros Hfresh. unfold Files.list_profiles. rewrite Hlist2.
    by rewrite delete_id.
Qed.

Lemma save_then_delete_profile_witness :
  let profile :=
    Files.ProfileSave.mk "calm" ["face"%string] {[ "blink"%string := Files.VInt 2 ]} in
  let d := Files.demo_disk "profiles.json"
             (Files.VDict {[ "idle"%string := Files.VNull ]}) in
  let d1 := (Files.save_profile (λ _, false) profile d).2 in
  (Files.delete_profile "calm" d1).1
    = Files.Returns {| n_status := "ok"; n_name := "calm" |} ∧
  Files.list_profiles (Files.delete_profile "calm" d1).2
    = Files.Returns (Files.VDict {[ "idle"%string := Files.VNull ]}).
Proof.
  intros profile d d1.
  destruct (save_then_delete_profile (λ _, false) profile d
              {| n_status := "ok"; n_name := "calm" |} d1 "profiles.json")
    as (old & Hold & _ & Hdel & Hafter).
  - reflexivity.
  - reflexivity.
  - vm_compute. discriminate.
  - injection Hold as <-. split; [exact Hdel|].
    destruct (Hafter {| n_status := "ok"; n_name := "calm" |}
                (Files.delete_profile "calm" d1).2) as [_ Hsame].
    + reflexivity.
    + apply Hsame. reflexivity.
Defined.


